(** * docktail: a shallow embedding of the log-tailing engine

    The development follows [docktail.py]: the style palette and its
    hash-based assignment, the per-container [LogWorker] loop, the container
    matcher, the reconciliation pass [ensure_workers_for_matches] and the
    body of the main loop of [logs].

    Conventions of the embedding.
    - A Python [str] is a [string] holding the UTF-8 bytes of the text, so
      [name.encode("utf-8")] is the identity, [==] is equality and [in] is
      containment of byte sequences.  [str.lower] is modelled on the ASCII
      letters (container names are ASCII); other bytes are left as they are.
      The matcher is written once with the lowercase function as a
      parameter, so that what does not depend on it is stated for all.
    - [Dict[str, LogWorker]] is a [gmap string LogWorker], [Set[str]] a
      [gset string].
    - [Thread.is_alive()] is the field [alive] of a worker record: [start()]
      sets it, the end of [run] clears it.
    - What the Docker daemon answers is an input of the functions: a listing
      for the matcher, one observation per loop iteration for a worker.
    - Console output, sleeps and thread starts are recorded in a trace of
      [event]s.
    - An exception that leaves a function is the [None] of an [option].
      The calls that the program makes outside any [try] and that the
      embedding takes to succeed are [console.print], [containers.list],
      [Thread.start] and the read of [container.status] after a reload that
      succeeded.
    - [time.time()] and the sleep durations are rationals. *)

From Stdlib Require Import NArith QArith Ascii String ZifyNat.
From stdpp Require Import gmap strings list fin_maps fin_sets.

Open Scope string_scope.
Open Scope nat_scope.
Open Scope list_scope.

(** [lia] reasons about [mod] by the equations of Euclidean division. *)
Ltac Zify.zify_post_hook ::= Z.to_euclidean_division_equations.

(** ** SHA-256 (FIPS 180-4), as [hashlib.sha256] computes it *)

Module Sha256.
Local Open Scope N_scope.

Definition mask32 : N := 0xffffffff.
Definition add32 (a b : N) : N := N.land (a + b) mask32.
Definition rotr (n x : N) : N :=
  N.land (N.lor (N.shiftr x n) (N.shiftl x (32 - n))) mask32.
Definition shr (n x : N) : N := N.shiftr x n.
Definition not32 (x : N) : N := N.lxor x mask32.

Definition Ch (x y z : N) : N := N.lxor (N.land x y) (N.land (not32 x) z).
Definition Maj (x y z : N) : N :=
  N.lxor (N.lxor (N.land x y) (N.land x z)) (N.land y z).
Definition Sigma0 (x : N) : N := N.lxor (N.lxor (rotr 2 x) (rotr 13 x)) (rotr 22 x).
Definition Sigma1 (x : N) : N := N.lxor (N.lxor (rotr 6 x) (rotr 11 x)) (rotr 25 x).
Definition sigma0 (x : N) : N := N.lxor (N.lxor (rotr 7 x) (rotr 18 x)) (shr 3 x).
Definition sigma1 (x : N) : N := N.lxor (N.lxor (rotr 17 x) (rotr 19 x)) (shr 10 x).

Definition is_prime (n : N) : bool :=
  forallb (λ d, negb (n mod d =? 0)) (map N.of_nat (seq 2 (N.to_nat n - 2))).

(** The first 64 primes: 2, ..., 311. *)
Definition primes : list N :=
  Eval vm_compute in List.filter is_prime (map N.of_nat (seq 2 310)).

(** The integer cube root of [n], found bit by bit below [2^bits]. *)
Fixpoint root3 (bits : nat) (n r : N) : N :=
  match bits with
  | O => r
  | S b =>
      let r' := r + 2 ^ N.of_nat b in
      root3 b n (if r' ^ 3 <=? n then r' else r)
  end.

(** The first 32 bits of the fractional part of the cube root and of the
    square root of [p]. *)
Definition frac_root3 (p : N) : N := root3 36 (p * 2 ^ 96) 0 mod 2 ^ 32.
Definition frac_root2 (p : N) : N := N.sqrt (p * 2 ^ 64) mod 2 ^ 32.

(** The round constants: the cube roots of the first 64 primes. *)
Definition K : list N := Eval vm_compute in map frac_root3 primes.

(** The initial hash value: the square roots of the first 8 primes. *)
Definition H0 : list N := Eval vm_compute in map frac_root2 (firstn 8 primes).

(** Big-endian value of a list of digits in base [2^bits]. *)
Definition be_value (bits : N) (ds : list N) : N :=
  fold_left (fun acc d => N.shiftl acc bits + d) ds 0.

(** The [n] low bytes of [x], most significant first. *)
Fixpoint be_bytes (n : nat) (x : N) : list N :=
  match n with
  | O => []
  | S k => N.land (N.shiftr x (8 * N.of_nat k)) 0xff :: be_bytes k x
  end.

Definition bytes_of (s : string) : list N :=
  map Ascii.N_of_ascii (String.list_ascii_of_string s).

(** Message, the byte 0x80, zero bytes up to 56 modulo 64, bit length. *)
Definition pad (msg : list N) : list N :=
  let len := length msg in
  let zeros := ((119 - len mod 64) mod 64)%nat in
  msg ++ [0x80] ++ repeat 0 zeros ++ be_bytes 8 (8 * N.of_nat len).

(** Cut a list into pieces of [n] elements; [fuel] bounds the pieces. *)
Fixpoint pieces {A} (n fuel : nat) (l : list A) : list (list A) :=
  match fuel with
  | O => []
  | S f =>
      match l with
      | [] => []
      | _ => firstn n l :: pieces n f (skipn n l)
      end
  end.

Definition words_of (bytes : list N) : list N :=
  map (be_value 8) (pieces 4 (length bytes) bytes).

(** The message schedule, most recent word first. *)
Fixpoint schedule (n : nat) (rw : list N) : list N :=
  match n with
  | O => rw
  | S k =>
      let w := add32 (add32 (sigma1 (nth 1 rw 0)) (nth 6 rw 0))
                     (add32 (sigma0 (nth 14 rw 0)) (nth 15 rw 0)) in
      schedule k (w :: rw)
  end.

Record regs := Regs { ra : N; rb : N; rc : N; rd : N;
                      re : N; rf : N; rg : N; rh : N }.

Definition round (r : regs) (kw : N * N) : regs :=
  let t1 := add32 (add32 (add32 (rh r) (Sigma1 (re r)))
                         (add32 (Ch (re r) (rf r) (rg r)) (fst kw))) (snd kw) in
  let t2 := add32 (Sigma0 (ra r)) (Maj (ra r) (rb r) (rc r)) in
  Regs (add32 t1 t2) (ra r) (rb r) (rc r) (add32 (rd r) t1) (re r) (rf r) (rg r).

Definition regs_of (h : list N) : regs :=
  Regs (nth 0 h 0) (nth 1 h 0) (nth 2 h 0) (nth 3 h 0)
       (nth 4 h 0) (nth 5 h 0) (nth 6 h 0) (nth 7 h 0).

Definition list_of (r : regs) : list N :=
  [ra r; rb r; rc r; rd r; re r; rf r; rg r; rh r].

Definition compress (h : list N) (block : list N) : list N :=
  let w := rev (schedule 48 (rev block)) in
  let r := fold_left round (combine K w) (regs_of h) in
  map (fun p => add32 (fst p) (snd p)) (combine h (list_of r)).

Definition digest_words (s : string) : list N :=
  let ws := words_of (pad (bytes_of s)) in
  fold_left compress (pieces 16 (length ws) ws) H0.

(** [int(hashlib.sha256(s).hexdigest(), 16)] *)
Definition digest_int (s : string) : N := be_value 32 (digest_words s).
End Sha256.

(** ** The palette and the identity assigner *)

(** Readable color styles; one is picked per container. *)
Definition STYLES : list string :=
  [ "bold cyan"; "bold magenta"; "bold green"; "bold yellow"; "bold blue";
    "bold red"; "cyan"; "magenta"; "green"; "yellow"; "blue"; "red";
    "bright_cyan"; "bright_magenta"; "bright_green"; "bright_yellow";
    "bright_blue"; "bright_red" ].

Definition hashed_index (name : string) : nat :=
  N.to_nat (Sha256.digest_int name mod N.of_nat (length STYLES)).

(** The [for off in range(...)] loop of [assign_style], run over the
    offsets that are left; [fallback] is the statement after the loop.
    [STYLES[i]] is the list lookup: its [None] is Python's [IndexError]. *)
Fixpoint first_unused (start : nat) (offs : list nat) (used_styles : gset string)
    (fallback : option string) : option string :=
  match offs with
  | [] => fallback
  | off :: rest =>
      candidate ← STYLES !! ((start + off) mod length STYLES);
      if decide (candidate ∈ used_styles)
      then first_unused start rest used_styles fallback
      else Some candidate
  end.

Definition assign_style (name : string) (used_styles : gset string) : option string :=
  let start := hashed_index name in
  first_unused start (seq 0 (length STYLES)) used_styles (STYLES !! start).

(** ** Containers as the Docker client shows them *)

Module Container.
(** The two keys of [attrs["Config"]] the program reads; [None] is a
    missing key or a null. *)
Record config := Cfg { Tty : option bool; OpenStdin : option bool }.

(** What [reload()] fetches: the status and, when present, the
    ["Config"] entry. *)
Record attrs := Attrs { status : string; Config : option config }.

(** How the generator of [logs(stream=True, follow=True, ...)] ends. *)
Inductive stream_end := Exhausted | RaisesAPIError | RaisesOther.

(** The log stream: each chunk comes with the value of
    [stop_event.is_set()] when it arrives and with its text as
    [decode("utf-8", errors="replace")] gives it. *)
Record stream := Stream { chunks : list (bool * string); ending : stream_end }.

(** [reload = None]: [reload()] raises. *)
Record t := Make { name : string; reload : option attrs; logs : stream }.
End Container.

(** [client.containers.list(all=True)] *)
Record DockerClient := { containers_list : list Container.t }.

(** ** Strings *)

Definition lower_ascii (c : ascii) : ascii :=
  let n := nat_of_ascii c in
  if (65 <=? n) && (n <=? 90) then ascii_of_nat (n + 32) else c.

(** [s.lower()] *)
Fixpoint lower (s : string) : string :=
  match s with
  | EmptyString => EmptyString
  | String c r => String (lower_ascii c) (lower r)
  end.

(** [p in s] *)
Fixpoint contains (p s : string) : bool :=
  String.prefix p s ||
  match s with
  | EmptyString => false
  | String _ r => contains p r
  end.

Definition newline : ascii := ascii_of_nat 10.

(** [s.rstrip("\n")] *)
Fixpoint rstrip_newline (s : string) : string :=
  match s with
  | EmptyString => EmptyString
  | String c r =>
      match rstrip_newline r with
      | EmptyString => if decide (c = newline) then EmptyString else String c EmptyString
      | r' => String c r'
      end
  end.

(** Truth value of [cfg.get(key)]. *)
Definition truthy (v : option bool) : bool := default false v.

(** ** The source matcher *)

Definition is_tty_container (c : Container.t) : bool :=
  match Container.reload c with
  | Some a =>
      let cfg := default (Container.Cfg None None) (Container.Config a) in
      truthy (Container.Tty cfg) || truthy (Container.OpenStdin cfg)
  | None => false
  end.

(** The body of [find_matching_containers], with [str_lower] standing
    for [str.lower]: what is stated for every [str_lower] does not depend
    on how a lowercase function treats text outside ASCII. *)
Definition find_matching_containers_with (str_lower : string → string)
    (client : DockerClient) (pattern : string) (exact include_tty : bool)
    : list Container.t :=
  let all_containers := containers_list client in
  let matches :=
    if exact
    then filter (λ c, Container.name c = pattern) all_containers
    else
      let p := str_lower pattern in
      filter (λ c, contains p (str_lower (Container.name c)) = true) all_containers in
  if negb include_tty
  then filter (λ c, is_tty_container c = false) matches
  else matches.

Definition find_matching_containers (client : DockerClient) (pattern : string)
    (exact include_tty : bool) : list Container.t :=
  find_matching_containers_with lower client pattern exact include_tty.

(** ** The tail worker *)

(** The fields of a [LogWorker] thread.  [alive] is [is_alive()]. *)
Record LogWorker := {
  container_name : string;
  style : string;
  tail : string;
  since : option Z;
  poll_sleep : Q;
  _attached_running : bool;
  alive : bool;
}.

Definition set_attached_running (b : bool) (w : LogWorker) : LogWorker :=
  {| container_name := container_name w; style := style w; tail := tail w;
     since := since w; poll_sleep := poll_sleep w;
     _attached_running := b; alive := alive w |}.

Definition set_alive (b : bool) (w : LogWorker) : LogWorker :=
  {| container_name := container_name w; style := style w; tail := tail w;
     since := since w; poll_sleep := poll_sleep w;
     _attached_running := _attached_running w; alive := b |}.

(** What the program does to the outside, in order. *)
Inductive event :=
  | Banner (prefix name style : string)   (* console.print(Text(f"{prefix} {name}", style)) *)
  | LogLine (name line style : string)    (* console.print(Text(f"[{name}] {line}", style)) *)
  | Sleep (seconds : Q)                   (* time.sleep(seconds) *)
  | Start (w : LogWorker)                 (* worker.start() *)
  | Reconcile.                            (* the main loop calls ensure_workers_for_matches *)

(** The answer of [client.containers.get(name)]. *)
Inductive lookup :=
  | NotFound                 (* raises docker.errors.NotFound *)
  | LookupError              (* raises another exception *)
  | Found (c : Container.t).

Definition _banner (w : LogWorker) (prefix : string) : event :=
  Banner prefix (container_name w) (style w).

(** The branch taken when the container is gone or not running. *)
Definition stop_branch (w : LogWorker) : LogWorker * list event :=
  if _attached_running w
  then (set_attached_running false w, [_banner w "-"; Sleep (poll_sleep w)])
  else (w, [Sleep (poll_sleep w)]).

(** The [for chunk in container.logs(...)] loop inside its [try]. *)
Fixpoint follow (w : LogWorker) (chunks : list (bool * string))
    (ending : Container.stream_end) : list event :=
  match chunks with
  | [] =>
      match ending with
      | Container.Exhausted => []
      | Container.RaisesAPIError => [Sleep (poll_sleep w)]
      | Container.RaisesOther => [Sleep (poll_sleep w)]
      end
  | (stop_is_set, text) :: rest =>
      if stop_is_set then []
      else
        let line := rstrip_newline text in
        (if decide (line = "") then [] else [LogLine (container_name w) line (style w)])
        ++ follow w rest ending
  end.

(** One pass through the body of [while not self.stop_event.is_set()]. *)
Definition run_iteration (w : LogWorker) (got : lookup) : LogWorker * list event :=
  match got with
  | NotFound => stop_branch w
  | LookupError => (w, [Sleep (poll_sleep w)])
  | Found container =>
      match Container.reload container with
      | None => (w, [Sleep (poll_sleep w)])
      | Some a =>
          if decide (Container.status a ≠ "running") then stop_branch w
          else
            let '(w1, started) :=
              if negb (_attached_running w)
              then (set_attached_running true w, [_banner w "+"])
              else (w, []) in
            let s := Container.logs container in
            (w1, started ++ follow w1 (Container.chunks s) (Container.ending s))
      end
  end.

(** [run] over the observations of its first iterations: for each one
    the value of [stop_event.is_set()] at the loop test and the answer
    of the lookup.  The thread ends when the event is seen set. *)
Fixpoint run (w : LogWorker) (obs : list (bool * lookup)) : LogWorker * list event :=
  match obs with
  | [] => (w, [])
  | (stop_is_set, got) :: rest =>
      if stop_is_set then (set_alive false w, [])
      else
        let '(w1, ev1) := run_iteration w got in
        let '(w2, ev2) := run w1 rest in
        (w2, ev1 ++ ev2)
  end.

(** The banners of a trace. *)
Definition is_banner (e : event) : bool :=
  match e with Banner _ _ _ => true | _ => false end.

Definition banners (evs : list event) : list event := List.filter is_banner evs.

(** ** The worker supervisor *)

(** [{w.style for w in active_workers.values() if w.is_alive()}] *)
Definition alive_styles (active_workers : gmap string LogWorker) : gset string :=
  list_to_set (omap (λ kw, if alive kw.2 then Some (style kw.2) else None)
                    (map_to_list active_workers)).

(** [name not in active_workers or not active_workers[name].is_alive()] *)
Definition needs_worker (active_workers : gmap string LogWorker) (name : string) : bool :=
  match active_workers !! name with
  | None => true
  | Some w => negb (alive w)
  end.

(** The worker as [LogWorker(...)] builds it and [start()] leaves it. *)
Definition started_worker (name style tail : string) (since : option Z) : LogWorker :=
  {| container_name := name; style := style; tail := tail; since := since;
     poll_sleep := 1 # 2; _attached_running := false; alive := true |}.

(** The [for c in matches] loop of [ensure_workers_for_matches]. *)
Fixpoint spawn (tail : string) (since : option Z) (matches : list Container.t)
    (used_styles : gset string) (active_workers : gmap string LogWorker)
    : option (gmap string LogWorker * list event) :=
  match matches with
  | [] => Some (active_workers, [])
  | c :: rest =>
      let name := Container.name c in
      if needs_worker active_workers name then
        style ← assign_style name used_styles;
        let used_styles := {[style]} ∪ used_styles in
        let worker := started_worker name style tail since in
        '(m, evs) ← spawn tail since rest used_styles (<[name := worker]> active_workers);
        Some (m, Start worker :: evs)
      else spawn tail since rest used_styles active_workers
  end.

Definition ensure_workers_for_matches (client : DockerClient) (pattern : string)
    (exact : bool) (tail : string) (since : option Z) (include_tty : bool)
    (active_workers : gmap string LogWorker)
    : option (gmap string LogWorker * list event) :=
  let matches := find_matching_containers client pattern exact include_tty in
  let used_styles := alive_styles active_workers in
  spawn tail since matches used_styles active_workers.

(** ** The main loop of [logs] *)

Record Options := {
  opt_pattern : string;
  opt_exact : bool;
  opt_tail : string;
  opt_since : option Z;
  opt_refresh : Q;
  opt_include_tty : bool;
}.

Record LoopState := {
  active_workers : gmap string LogWorker;
  last_refresh : Q;
}.

Definition reconcile (o : Options) (client : DockerClient)
    (m : gmap string LogWorker) : option (gmap string LogWorker * list event) :=
  '(m', evs) ← ensure_workers_for_matches client (opt_pattern o) (opt_exact o)
                 (opt_tail o) (opt_since o) (opt_include_tty o) m;
  Some (m', Reconcile :: evs).

(** The body of [while not stop_event.is_set()] in [logs]; [now] is the
    value of [time.time()] and [client] what Docker shows during the
    iteration. *)
Definition main_loop_body (o : Options) (client : DockerClient) (now : Q)
    (st : LoopState) : option (LoopState * list event) :=
  '(st1, ev1) ←
    (if negb (opt_exact o) && Qle_bool (opt_refresh o) (now - last_refresh st)
     then '(m, evs) ← reconcile o client (active_workers st);
          Some ({| active_workers := m; last_refresh := now |}, evs)
     else Some (st, []));
  '(st2, ev2) ←
    (if opt_exact o && bool_decide (active_workers st1 = ∅)
     then '(m, evs) ← reconcile o client (active_workers st1);
          Some ({| active_workers := m; last_refresh := last_refresh st1 |}, evs)
     else Some (st1, []));
  Some (st2, ev1 ++ ev2 ++ [Sleep (2 # 10)]).

(** ** Vocabulary of the statements *)

(** The status a loop iteration reads after [container.reload()], if it
    gets that far. *)
Definition observed_status (got : lookup) : option string :=
  match got with
  | Found c => Container.status <$> Container.reload c
  | _ => None
  end.

Definition sees_running (got : lookup) : Prop :=
  observed_status got = Some "running".

Definition sees_not_running (got : lookup) : Prop :=
  ∃ s, observed_status got = Some s ∧ s ≠ "running".

(** The candidate that the loop of [assign_style] looks at for offset
    [off] is in use. *)
Definition taken (start : nat) (used : gset string) (off : nat) : Prop :=
  ∃ c, STYLES !! ((start + off) mod length STYLES) = Some c ∧ c ∈ used.

(** Successive polls of a worker that is not being cancelled. *)
Definition polls (gots : list lookup) : list (bool * lookup) :=
  (λ got, (false, got)) <$> gots.

(** Eighteen styles are in use, but only one of them, the hashed style of
    ["api"], belongs to the palette. *)
Definition crowded_styles : gset string :=
  list_to_set
    [ "bold red"; "white"; "black"; "bold white"; "bold black"; "bright_white";
      "bright_black"; "dim"; "italic"; "underline"; "reverse"; "blink";
      "strike"; "grey50"; "orange1"; "purple"; "pink1"; "gold1" ].

(** A container called [name] in the given state, with no TTY. *)
Definition container (name status : string) (chunks : list (bool * string)) : Container.t :=
  Container.Make name
    (Some (Container.Attrs status (Some (Container.Cfg (Some false) (Some false)))))
    (Container.Stream chunks Container.Exhausted).

(** The worker the supervisor starts for ["api"] when no style is in use. *)
Definition api_worker : LogWorker := started_worker "api" "bold red" "all" None.

(** A container whose [reload()] raises. *)
Definition unreadable (name : string) : Container.t :=
  Container.Make name None (Container.Stream [] Container.Exhausted).

(** A container started with a TTY. *)
Definition shell (name : string) : Container.t :=
  Container.Make name
    (Some (Container.Attrs "running" (Some (Container.Cfg (Some true) (Some true)))))
    (Container.Stream [] Container.Exhausted).

(** The styles handed out by the [Start] events of a trace. *)
Definition started_styles (evs : list event) : gset string :=
  list_to_set (omap (λ e, match e with Start w => Some (style w) | _ => None end) evs).

Definition is_start (e : event) : Prop := ∃ w, e = Start w.

(** Three containers; ["api"] and ["cache"] have the same hashed index. *)
Definition fleet : DockerClient :=
  {| containers_list :=
       [container "api" "running" []; container "cache" "running" [];
        container "web" "exited" []] |}.

(** The same names an instant later, ["web"] now running. *)
Definition fleet_later : DockerClient :=
  {| containers_list :=
       [container "api" "running" []; container "cache" "running" [];
        container "web" "running" []] |}.

(** A worker whose thread has ended. *)
Definition dead_api_worker : LogWorker := set_alive false api_worker.

(** [--exact api], the other options at their defaults. *)
Definition exact_api : Options :=
  {| opt_pattern := "api"; opt_exact := true; opt_tail := "all";
     opt_since := None; opt_refresh := 1; opt_include_tty := false |}.

(** ** More sample data *)

(** The worker started for ["cache"] when ["bold red"] is taken. *)
Definition cache_worker : LogWorker := started_worker "cache" "cyan" "all" None.

(** [[unreadable "api"]] listed after a shell. *)
Definition shell_and_unreadable : DockerClient :=
  {| containers_list := [shell "api-sh"; unreadable "api"] |}.

(** ** The start and the whole main loop of [logs] *)

(** The advisory of [logs] about an exact target with a TTY: the name it
    mentions, if it is printed.  [client] is what Docker shows at the
    check. *)
Definition tty_advisory (o : Options) (client : DockerClient) : option string :=
  if opt_exact o then
    match find_matching_containers client (opt_pattern o) true true with
    | c :: _ =>
        if is_tty_container c && negb (opt_include_tty o)
        then Some (Container.name c)
        else None
    | [] => None
    end
  else None.

(** [logs] from the initial spawn to the entry of the main loop: the
    state the loop starts in, the trace of the spawn and the advisory. *)
Definition logs_start (o : Options) (client client_check : DockerClient)
    : option (LoopState * list event * option string) :=
  '(m, evs) ← ensure_workers_for_matches client (opt_pattern o) (opt_exact o)
                (opt_tail o) (opt_since o) (opt_include_tty o) ∅;
  Some ({| active_workers := m; last_refresh := 0 |}, evs, tty_advisory o client_check).

(** The [while not stop_event.is_set()] loop of [logs] over the
    observations of its first iterations: the value of
    [stop_event.is_set()] at the loop test, what Docker shows and the
    clock. *)
Fixpoint main_loop (o : Options) (obs : list (bool * DockerClient * Q))
    (st : LoopState) : option (LoopState * list event) :=
  match obs with
  | [] => Some (st, [])
  | (stop_is_set, client, now) :: rest =>
      if stop_is_set then Some (st, [])
      else
        '(st1, ev1) ← main_loop_body o client now st;
        '(st2, ev2) ← main_loop o rest st1;
        Some (st2, ev1 ++ ev2)
  end.

(** [logs] from the initial spawn through the iterations of the loop. *)
Definition logs_run (o : Options) (client client_check : DockerClient)
    (obs : list (bool * DockerClient * Q)) : option (LoopState * list event) :=
  '(st0, ev0, _) ← logs_start o client client_check;
  '(st, evs) ← main_loop o obs st0;
  Some (st, ev0 ++ evs).

(** ** More vocabulary *)

(** The lookup, or the reload after it, raises. *)
Definition lookup_fails (got : lookup) : Prop :=
  match got with
  | NotFound | LookupError => True
  | Found c => Container.reload c = None
  end.

(** [n] banners that alternate, the first one ["-"] for an attached
    worker and ["+"] otherwise. *)
Fixpoint alternation (name style : string) (attached : bool) (n : nat) : list event :=
  match n with
  | O => []
  | S k =>
      Banner (if attached then "-" else "+") name style
      :: alternation name style (negb attached) k
  end.

(** The workers started by the [Start] events of a trace. *)
Definition started_workers (evs : list event) : list LogWorker :=
  omap (λ e, match e with Start w => Some w | _ => None end) evs.

(** The event belongs to the worker: its banners and lines carry the
    worker's name and style, its sleeps last [poll_sleep]. *)
Definition own_event (w : LogWorker) (e : event) : Prop :=
  match e with
  | Banner _ name st | LogLine name _ st => name = container_name w ∧ st = style w
  | Sleep d => d = poll_sleep w
  | Start _ | Reconcile => False
  end.

(** Every record is filed under the name of its container and holds a
    palette style. *)
Definition well_formed (m : gmap string LogWorker) : Prop :=
  ∀ name w, m !! name = Some w → container_name w = name ∧ style w ∈ STYLES.

(** The chunks of a stream up to the first one that arrives with the
    stop event set. *)
Fixpoint before_stop (chunks : list (bool * string)) : list string :=
  match chunks with
  | [] => []
  | (stop_is_set, text) :: rest =>
      if stop_is_set then [] else text :: before_stop rest
  end.

(** [--substring] with pattern ["a"] and a rescan every second. *)
Definition substring_a : Options :=
  {| opt_pattern := "a"; opt_exact := false; opt_tail := "all";
     opt_since := None; opt_refresh := 1; opt_include_tty := false |}.

(** Nothing is lost from [m] to [m']: the entries of alive workers are
    the same and every name that had an entry has one. *)
Definition grows (m m' : gmap string LogWorker) : Prop :=
  (∀ name w, m !! name = Some w → alive w = true → m' !! name = Some w)
  ∧ (∀ name, is_Some (m !! name) → is_Some (m' !! name)).

(** Reading a worker's trace with the attached flag [a], which flips at
    each banner: the flag at the end, or [None] if a log line is met while
    the flag is clear. *)
Fixpoint attached_scan (a : bool) (evs : list event) : option bool :=
  match evs with
  | [] => Some a
  | Banner _ _ _ :: rest => attached_scan (negb a) rest
  | LogLine _ _ _ :: rest => if a then attached_scan a rest else None
  | _ :: rest => attached_scan a rest
  end.

(** * Properties *)

(** ** SHA-256 test vectors *)

Example sha256_empty :
  Sha256.digest_int "" =
  0xe3b0c44298fc1c149afbf4c8996fb92427ae41e4649b934ca495991b7852b855%N.
Proof. vm_compute. reflexivity. Qed.

Example sha256_abc :
  Sha256.digest_int "abc" =
  0xba7816bf8f01cfea414140de5dae2223b00361a396177a9cb410ff61f20015ad%N.
Proof. vm_compute. reflexivity. Qed.

Example sha256_two_blocks :
  Sha256.digest_int "abcdbcdecdefdefgefghfghighijhijkijkljklmklmnlmnomnopnopq" =
  0x248d6a61d20638b8e5c026930c3e6039a33ce45964ff2167f6ecedd419db06c1%N.
Proof. vm_compute. reflexivity. Qed.

Example hashed_index_api : hashed_index "api" = 5.
Proof. vm_compute. reflexivity. Qed.

(** ** The identity assigner *)

Section Palette.
Implicit Types (used : gset string) (start off : nat).

Lemma STYLES_length : length STYLES = 18.
Proof. reflexivity. Qed.

Lemma STYLES_NoDup : NoDup STYLES.
Proof. apply (bool_decide_unpack (NoDup STYLES)). vm_compute. reflexivity. Qed.

Lemma STYLES_size : size (list_to_set STYLES : gset string) = length STYLES.
Proof. vm_compute. reflexivity. Qed.

Lemma hashed_index_lt name : hashed_index name < length STYLES.
Proof.
  unfold hashed_index. rewrite STYLES_length.
  pose proof (N.mod_upper_bound (Sha256.digest_int name) (N.of_nat 18)).
  lia.
Qed.

Lemma STYLES_lookup_mod i : is_Some (STYLES !! (i mod length STYLES)).
Proof. apply lookup_lt_is_Some. rewrite STYLES_length. lia. Qed.

(** Either every offset was taken and the loop fell through, or it
    returned at the first offset whose candidate is free. *)
Lemma first_unused_spec start offs used fallback :
  (Forall (taken start used) offs
   ∧ first_unused start offs used fallback = fallback)
  ∨ (∃ pre off post c,
       offs = pre ++ off :: post
       ∧ Forall (taken start used) pre
       ∧ STYLES !! ((start + off) mod length STYLES) = Some c
       ∧ (c ∉ used)
       ∧ first_unused start offs used fallback = Some c).
Proof.
  induction offs as [|off rest IH]; cbn [first_unused].
  - left. split; [constructor | reflexivity].
  - destruct (STYLES_lookup_mod (start + off)) as [c Hc]. rewrite Hc. cbn [mbind option_bind].
    destruct (decide (c ∈ used)) as [Hin|Hout].
    + destruct IH as [[Hall Hres] | (pre & o & post & c' & -> & Hpre & Hc' & Hfree & Hres)].
      * left. split; [|exact Hres]. constructor; [exists c; auto | exact Hall].
      * right. exists (off :: pre), o, post, c'. repeat split; auto.
        constructor; [exists c; auto | exact Hpre].
    + right. exists [], off, rest, c. repeat split; auto.
Qed.

(** A full turn from [start] passes over every palette entry. *)
Lemma full_turn_covers start used :
  Forall (taken start used) (seq 0 (length STYLES)) →
  ∀ s, s ∈ STYLES → s ∈ used.
Proof.
  intros Hall s Hs.
  apply list_elem_of_lookup in Hs as [i Hi].
  pose proof (lookup_lt_Some _ _ _ Hi) as Hlt. rewrite STYLES_length in Hlt.
  rewrite Forall_forall in Hall.
  destruct (Hall ((i + 18 - start mod 18) mod 18)) as (c & Hc & Hin).
  { apply list_elem_of_In, in_seq. rewrite STYLES_length. lia. }
  rewrite STYLES_length in Hc.
  replace ((start + (i + 18 - start mod 18) mod 18) mod 18) with i in Hc by lia.
  congruence.
Qed.

(** A set that holds the whole palette has at least its size. *)
Lemma palette_in_use_size used :
  (∀ s, s ∈ STYLES → s ∈ used) → length STYLES ≤ size used.
Proof.
  intros Hall. rewrite <- STYLES_size. apply subseteq_size.
  intros s Hs. apply Hall. by apply elem_of_list_to_set in Hs.
Qed.

Lemma seq_split_at n pre off post :
  seq 0 n = pre ++ off :: post → off = length pre ∧ off < n.
Proof.
  intros Heq.
  assert (Hlen : length (seq 0 n) = length pre + S (length post)).
  { rewrite Heq, length_app. reflexivity. }
  rewrite length_seq in Hlen.
  assert (Hnth : seq 0 n !! length pre = Some off).
  { rewrite Heq. by rewrite list_lookup_middle. }
  apply lookup_seq in Hnth. lia.
Qed.

Lemma assign_style_is_Some name used : is_Some (assign_style name used).
Proof.
  unfold assign_style.
  destruct (first_unused_spec (hashed_index name) (seq 0 (length STYLES)) used
              (STYLES !! hashed_index name))
    as [[_ ->] | (pre & o & post & c & _ & _ & _ & _ & ->)]; [|eauto].
  apply lookup_lt_is_Some, hashed_index_lt.
Qed.

Lemma assign_style_in_palette name used s :
  assign_style name used = Some s → s ∈ STYLES.
Proof.
  unfold assign_style.
  destruct (first_unused_spec (hashed_index name) (seq 0 (length STYLES)) used
              (STYLES !! hashed_index name))
    as [[_ ->] | (pre & o & post & c & _ & _ & Hc & _ & ->)].
  - intros H. by eapply list_elem_of_lookup_2.
  - intros [= <-]. by eapply list_elem_of_lookup_2.
Qed.

(** When a palette style is free, the result is free. *)
Lemma assign_style_free name used s :
  (∃ p, p ∈ STYLES ∧ p ∉ used) → assign_style name used = Some s → s ∉ used.
Proof.
  intros (p & Hp & Hfree). unfold assign_style.
  destruct (first_unused_spec (hashed_index name) (seq 0 (length STYLES)) used
              (STYLES !! hashed_index name))
    as [[Hall _] | (pre & o & post & c & _ & _ & _ & Hc & ->)].
  - exfalso. apply Hfree. by eapply full_turn_covers.
  - by intros [= <-].
Qed.

(** When the whole palette is in use, the result is the hashed style. *)
Lemma assign_style_exhausted name used :
  (∀ s, s ∈ STYLES → s ∈ used) →
  assign_style name used = STYLES !! hashed_index name.
Proof.
  intros Hall. unfold assign_style.
  destruct (first_unused_spec (hashed_index name) (seq 0 (length STYLES)) used
              (STYLES !! hashed_index name))
    as [[_ ->] | (pre & o & post & c & _ & _ & Hc & Hfree & _)]; [reflexivity|].
  exfalso. apply Hfree, Hall. by eapply list_elem_of_lookup_2.
Qed.
End Palette.

(** C2. Whenever fewer styles are in use than the palette has,
    [assign_style] returns the first style, going round the palette from
    the hashed index of the name, that is not in use: there is an offset
    [off] below the palette length whose candidate is the result and is
    not in [used_styles], and the candidates of all smaller offsets are in
    [used_styles]. *)
Theorem assign_style_first_unused (name : string) (used_styles : gset string) :
  size used_styles < length STYLES →
  ∃ off c,
    off < length STYLES
    ∧ assign_style name used_styles = Some c
    ∧ STYLES !! ((hashed_index name + off) mod length STYLES) = Some c
    ∧ (c ∉ used_styles)
    ∧ ∀ off', off' < off →
        ∃ c', STYLES !! ((hashed_index name + off') mod length STYLES) = Some c'
              ∧ c' ∈ used_styles.
Proof.
  intros Hsize. unfold assign_style.
  destruct (first_unused_spec (hashed_index name) (seq 0 (length STYLES)) used_styles
              (STYLES !! hashed_index name))
    as [[Hall _] | (pre & off & post & c & Hsplit & Hpre & Hc & Hfree & ->)].
  - pose proof (palette_in_use_size used_styles
                  (full_turn_covers _ _ Hall)). lia.
  - destruct (seq_split_at _ _ _ _ Hsplit) as [Hoff Hlt].
    exists off, c. repeat split; auto.
    intros off' Hlt'. rewrite Forall_forall in Hpre. apply Hpre.
    assert (Hnth : seq 0 (length STYLES) !! off' = Some off').
    { apply lookup_seq. lia. }
    rewrite Hsplit, lookup_app_l in Hnth by lia.
    by eapply list_elem_of_lookup_2.
Qed.

Lemma assign_style_first_unused_witness :
  size ({["bold red"]} : gset string) < length STYLES
  ∧ ∃ off c,
      off < length STYLES
      ∧ assign_style "api" {["bold red"]} = Some c
      ∧ STYLES !! ((hashed_index "api" + off) mod length STYLES) = Some c
      ∧ (c ∉ ({["bold red"]} : gset string))
      ∧ ∀ off', off' < off →
          ∃ c', STYLES !! ((hashed_index "api" + off') mod length STYLES) = Some c'
                ∧ c' ∈ ({["bold red"]} : gset string).
Proof.
  assert (H : size ({["bold red"]} : gset string) < length STYLES) by (vm_compute; lia).
  split; [exact H | exact (assign_style_first_unused "api" {["bold red"]} H)].
Defined.

(** With one style in use, ["api"] (hashed to ["bold red"]) gets the next one. *)
Example assign_style_api : assign_style "api" {["bold red"]} = Some "cyan".
Proof. vm_compute. reflexivity. Qed.

(** C3 as stated fails: a used set of the size of the palette need not
    hold the palette; then a free palette style is found and returned
    instead of the hashed one. *)
Lemma assign_style_same_size_not_hashed :
  size crowded_styles = length STYLES
  ∧ STYLES !! hashed_index "api" = Some "bold red"
  ∧ assign_style "api" crowded_styles = Some "cyan"
  ∧ assign_style "api" crowded_styles ≠ STYLES !! hashed_index "api".
Proof.
  assert (H1 : STYLES !! hashed_index "api" = Some "bold red")
    by (vm_compute; reflexivity).
  assert (H2 : assign_style "api" crowded_styles = Some "cyan")
    by (vm_compute; reflexivity).
  split; [vm_compute; reflexivity|].
  split; [exact H1|]. split; [exact H2|].
  rewrite H1, H2. discriminate.
Qed.

(** C3, amended. For a used set made of palette styles and as large as
    the palette (so that every palette style is in use), [assign_style]
    returns the hashed starting style [STYLES[hashed_index name]], and it
    returns a value: no lookup fails. *)
Theorem assign_style_palette_exhausted (name : string) (used_styles : gset string) :
  used_styles ⊆ list_to_set STYLES →
  size used_styles = length STYLES →
  ∃ s, assign_style name used_styles = Some s
       ∧ STYLES !! hashed_index name = Some s.
Proof.
  intros Hsub Hsize.
  destruct (lookup_lt_is_Some_2 STYLES (hashed_index name) (hashed_index_lt name))
    as [s Hs].
  exists s. split; [|exact Hs]. rewrite <- Hs.
  apply assign_style_exhausted. intros p Hp.
  assert (Heq : used_styles = list_to_set STYLES).
  { apply set_subseteq_size_eq; [exact Hsub|]. rewrite STYLES_size. lia. }
  rewrite Heq. by apply elem_of_list_to_set.
Qed.

Lemma assign_style_palette_exhausted_witness :
  (list_to_set STYLES : gset string) ⊆ list_to_set STYLES
  ∧ size (list_to_set STYLES : gset string) = length STYLES
  ∧ ∃ s, assign_style "api" (list_to_set STYLES) = Some s
         ∧ STYLES !! hashed_index "api" = Some s.
Proof.
  assert (H1 : (list_to_set STYLES : gset string) ⊆ list_to_set STYLES)
    by reflexivity.
  assert (H2 : size (list_to_set STYLES : gset string) = length STYLES)
    by (vm_compute; reflexivity).
  exact (conj H1 (conj H2
    (assign_style_palette_exhausted "api" (list_to_set STYLES) H1 H2))).
Defined.

(** ** The tail worker *)

Section Worker.
Implicit Types (w : LogWorker) (got : lookup) (gots : list lookup).

Lemma banners_app (e1 e2 : list event) : banners (e1 ++ e2) = banners e1 ++ banners e2.
Proof. apply List.filter_app. Qed.

Lemma follow_no_banner w chunks ending : banners (follow w chunks ending) = [].
Proof.
  induction chunks as [|[stop text] rest IH]; cbn [follow].
  - by destruct ending.
  - destruct stop; [reflexivity|]. rewrite banners_app, IH.
    by destruct (decide (rstrip_newline text = "")).
Qed.

(** An iteration changes nothing of a worker but the attached flag. *)
Lemma run_iteration_fields w got :
  (run_iteration w got).1 = set_attached_running (_attached_running (run_iteration w got).1) w.
Proof.
  destruct w as [n s t si p a al].
  unfold run_iteration, stop_branch.
  repeat (case_match; simplify_eq/=; try reflexivity).
Qed.

Lemma run_iteration_name w got : container_name (run_iteration w got).1 = container_name w.
Proof. by rewrite run_iteration_fields. Qed.

Lemma run_iteration_style w got : style (run_iteration w got).1 = style w.
Proof. by rewrite run_iteration_fields. Qed.

(** The loop goes on to the next poll after every iteration. *)
Lemma run_cons w got rest :
  run w ((false, got) :: rest)
  = ((run (run_iteration w got).1 rest).1,
     (run_iteration w got).2 ++ (run (run_iteration w got).1 rest).2).
Proof.
  cbn [run]. destruct (run_iteration w got) as [w1 e1]. cbn [fst snd].
  by destruct (run w1 rest) as [w2 e2].
Qed.

Lemma run_polls_app w gots1 gots2 :
  run w (polls (gots1 ++ gots2))
  = ((run (run w (polls gots1)).1 (polls gots2)).1,
     (run w (polls gots1)).2 ++ (run (run w (polls gots1)).1 (polls gots2)).2).
Proof.
  revert w. induction gots1 as [|got rest IH]; intros w.
  - change (polls ([] ++ gots2)) with (polls gots2).
    change (run w (polls [])) with (w, @nil event). cbn [fst snd app].
    by destruct (run w (polls gots2)).
  - change (polls ((got :: rest) ++ gots2)) with ((false, got) :: polls (rest ++ gots2)).
    change (polls (got :: rest)) with ((false, got) :: polls rest).
    rewrite !run_cons, IH. cbn [fst snd]. by rewrite app_assoc.
Qed.

(** Not running, seen by a worker that is not attached: silence. *)
Lemma stopped_poll_silent w got :
  _attached_running w = false → sees_not_running got →
  run_iteration w got = (w, [Sleep (poll_sleep w)]).
Proof.
  intros Hflag (s & Hs & Hne). destruct got as [| |c]; try discriminate.
  cbn in Hs. unfold run_iteration, stop_branch.
  destruct (Container.reload c) as [a|]; [|discriminate]. simplify_eq/=.
  rewrite decide_True by done. by rewrite Hflag.
Qed.

(** Not running, seen by an attached worker: one ["-"], flag cleared. *)
Lemma stopped_poll_detaches w got :
  _attached_running w = true → sees_not_running got →
  run_iteration w got
  = (set_attached_running false w, [_banner w "-"; Sleep (poll_sleep w)]).
Proof.
  intros Hflag (s & Hs & Hne). destruct got as [| |c]; try discriminate.
  cbn in Hs. unfold run_iteration, stop_branch.
  destruct (Container.reload c) as [a|]; [|discriminate]. simplify_eq/=.
  rewrite decide_True by done. by rewrite Hflag.
Qed.

(** Running, seen by a worker that is not attached: one ["+"], flag set. *)
Lemma running_poll_attaches w got :
  _attached_running w = false → sees_running got →
  _attached_running (run_iteration w got).1 = true
  ∧ banners (run_iteration w got).2 = [_banner w "+"].
Proof.
  intros Hflag Hs. destruct got as [| |c]; try discriminate.
  unfold sees_running in Hs. cbn in Hs. unfold run_iteration.
  destruct (Container.reload c) as [a|]; [|discriminate]. simplify_eq/=.
  rewrite decide_False by (intros Hne; by apply Hne).
  rewrite Hflag. cbn. split; [reflexivity|].
  by rewrite follow_no_banner.
Qed.

(** Running, seen by an attached worker: no banner, flag kept. *)
Lemma running_poll_attached w got :
  _attached_running w = true → sees_running got →
  (run_iteration w got).1 = w ∧ banners (run_iteration w got).2 = [].
Proof.
  intros Hflag Hs. destruct got as [| |c]; try discriminate.
  unfold sees_running in Hs. cbn in Hs. unfold run_iteration.
  destruct (Container.reload c) as [a|]; [|discriminate]. simplify_eq/=.
  rewrite decide_False by (intros Hne; by apply Hne).
  rewrite Hflag. cbn. split; [reflexivity|].
  by rewrite follow_no_banner.
Qed.

Lemma stopped_polls_silent w gots :
  _attached_running w = false → Forall sees_not_running gots →
  (run w (polls gots)).1 = w ∧ banners (run w (polls gots)).2 = [].
Proof.
  intros Hflag Hall. induction Hall as [|got rest Hgot _ IH]; [done|].
  change (polls (got :: rest)) with ((false, got) :: polls rest).
  rewrite run_cons, (stopped_poll_silent w got Hflag Hgot). cbn [fst snd].
  destruct IH as [-> Hb]. split; [reflexivity|].
  by rewrite banners_app, Hb.
Qed.

Lemma running_polls_silent w gots :
  _attached_running w = true → Forall sees_running gots →
  (run w (polls gots)).1 = w ∧ banners (run w (polls gots)).2 = [].
Proof.
  intros Hflag Hall. induction Hall as [|got rest Hgot _ IH]; [done|].
  change (polls (got :: rest)) with ((false, got) :: polls rest).
  rewrite run_cons.
  destruct (running_poll_attached w got Hflag Hgot) as [-> Hb1].
  destruct IH as [-> Hb]. cbn [fst snd]. split; [reflexivity|].
  by rewrite banners_app, Hb1, Hb.
Qed.
End Worker.

(** C1. A worker that is not attached and sees its container not running
    (polls [stopped1]), then running (the poll [r] and the polls
    [running]), then not running again (the poll [q] and the polls
    [stopped2]) prints nothing while it waits, one ["+"] banner at the
    first running poll, nothing at the further running polls, one ["-"]
    banner at the first poll that is not running and nothing afterwards:
    over all those polls its banners are exactly ["+"] then ["-"]. *)
Theorem worker_one_banner_per_transition
    (w : LogWorker) (stopped1 : list lookup) (r : lookup) (running : list lookup)
    (q : lookup) (stopped2 : list lookup) :
  _attached_running w = false →
  Forall sees_not_running stopped1 →
  sees_running r → Forall sees_running running →
  sees_not_running q → Forall sees_not_running stopped2 →
  let plus := Banner "+" (container_name w) (style w) in
  let minus := Banner "-" (container_name w) (style w) in
  let w1 := (run w (polls stopped1)).1 in
  let w2 := (run_iteration w1 r).1 in
  let w3 := (run w2 (polls running)).1 in
  let w4 := (run_iteration w3 q).1 in
  banners (run w (polls stopped1)).2 = []
  ∧ banners (run_iteration w1 r).2 = [plus]
  ∧ banners (run w2 (polls running)).2 = []
  ∧ banners (run_iteration w3 q).2 = [minus]
  ∧ banners (run w4 (polls stopped2)).2 = []
  ∧ banners (run w (polls (stopped1 ++ r :: running ++ q :: stopped2))).2
    = [plus; minus].
Proof.
  intros Hflag Hs1 Hr Hrun Hq Hs2. cbv zeta.
  destruct (stopped_polls_silent w stopped1 Hflag Hs1) as [Hw1 Hb1].
  rewrite Hw1.
  destruct (running_poll_attaches w r Hflag Hr) as [Hflag2 Hb2].
  pose proof (run_iteration_name w r) as Hn2.
  pose proof (run_iteration_style w r) as Hst2.
  set (w2 := (run_iteration w r).1) in *.
  destruct (running_polls_silent w2 running Hflag2 Hrun) as [Hw3 Hb3].
  rewrite Hw3.
  pose proof (stopped_poll_detaches w2 q Hflag2 Hq) as Hq'.
  assert (Hb4 : banners (run_iteration w2 q).2 = [Banner "-" (container_name w) (style w)]).
  { rewrite Hq'. cbn. unfold _banner. by rewrite Hn2, Hst2. }
  assert (Hflag4 : _attached_running (run_iteration w2 q).1 = false) by (by rewrite Hq').
  set (w4 := (run_iteration w2 q).1) in *.
  destruct (stopped_polls_silent w4 stopped2 Hflag4 Hs2) as [Hw5 Hb5].
  repeat split; try done.
  rewrite run_polls_app. cbn [snd fst]. rewrite Hw1.
  change (polls (r :: running ++ q :: stopped2))
    with ((false, r) :: polls (running ++ q :: stopped2)).
  rewrite run_cons. cbn [snd fst]. fold w2.
  rewrite run_polls_app. cbn [snd fst]. rewrite Hw3.
  change (polls (q :: stopped2)) with ((false, q) :: polls stopped2).
  rewrite run_cons. cbn [snd fst]. fold w4.
  rewrite !banners_app, Hb1, Hb2, Hb3, Hb4, Hb5. reflexivity.
Qed.

Lemma worker_one_banner_per_transition_witness :
  banners (run api_worker
             (polls ([Found (container "api" "exited" [])]
                     ++ Found (container "api" "running" [(false, "ready" +:+ String newline "")])
                     :: [Found (container "api" "running" [])]
                     ++ Found (container "api" "exited" [])
                     :: [Found (container "api" "exited" [])]))).2
  = [Banner "+" "api" "bold red"; Banner "-" "api" "bold red"].
Proof.
  assert (Hstopped : sees_not_running (Found (container "api" "exited" []))).
  { exists "exited". split; [reflexivity | discriminate]. }
  refine (proj2 (proj2 (proj2 (proj2 (proj2
    (worker_one_banner_per_transition api_worker
       [Found (container "api" "exited" [])]
       (Found (container "api" "running" [(false, "ready" +:+ String newline "")]))
       [Found (container "api" "running" [])]
       (Found (container "api" "exited" []))
       [Found (container "api" "exited" [])]
       _ _ _ _ _ _)))))).
  - reflexivity.
  - constructor; [exact Hstopped | constructor].
  - reflexivity.
  - constructor; [reflexivity | constructor].
  - exact Hstopped.
  - constructor; [exact Hstopped | constructor].
Defined.

(** The same polls, with the log lines and the sleeps between the banners. *)
Example worker_trace :
  (run api_worker
     (polls [Found (container "api" "exited" []);
             Found (container "api" "running" [(false, "ready" +:+ String newline "")]);
             Found (container "api" "running" []);
             Found (container "api" "exited" []);
             Found (container "api" "exited" [])])).2
  = [Sleep (1 # 2); Banner "+" "api" "bold red"; LogLine "api" "ready" "bold red";
     Banner "-" "api" "bold red"; Sleep (1 # 2); Sleep (1 # 2)].
Proof. vm_compute. reflexivity. Qed.

(** C4 as stated fails for lookup errors other than "not found": a worker
    that attached to the running ["api"] and then meets such an error
    prints no ["-"] banner and keeps its attached flag. *)
Lemma worker_lookup_error_keeps_attachment :
  _attached_running (run_iteration api_worker (Found (container "api" "running" []))).1 = true
  ∧ run_iteration (run_iteration api_worker (Found (container "api" "running" []))).1 LookupError
    = ((run_iteration api_worker (Found (container "api" "running" []))).1, [Sleep (1 # 2)])
  ∧ banners (run_iteration
               (run_iteration api_worker (Found (container "api" "running" []))).1
               LookupError).2 = []
  ∧ _attached_running
      (run_iteration
         (run_iteration api_worker (Found (container "api" "running" []))).1
         LookupError).1 = true.
Proof. vm_compute. repeat split; reflexivity. Qed.

(** C4, amended. When the lookup raises "not found", the worker prints a
    ["-"] banner if it was attached and not otherwise, ends the iteration
    with the attached flag cleared, sleeps [poll_sleep] and goes on to the
    next poll.  When the lookup raises any other error, the worker prints
    nothing, keeps its attached flag as it is, sleeps [poll_sleep] and goes
    on to the next poll. *)
Theorem worker_lookup_failure (w : LogWorker) (rest : list (bool * lookup)) :
  run_iteration w NotFound
  = (set_attached_running false w,
     (if _attached_running w then [Banner "-" (container_name w) (style w)] else [])
     ++ [Sleep (poll_sleep w)])
  ∧ run_iteration w LookupError = (w, [Sleep (poll_sleep w)])
  ∧ run w ((false, NotFound) :: rest)
    = ((run (set_attached_running false w) rest).1,
       (if _attached_running w then [Banner "-" (container_name w) (style w)] else [])
       ++ [Sleep (poll_sleep w)] ++ (run (set_attached_running false w) rest).2)
  ∧ run w ((false, LookupError) :: rest)
    = ((run w rest).1, Sleep (poll_sleep w) :: (run w rest).2).
Proof.
  assert (Hnf : run_iteration w NotFound
    = (set_attached_running false w,
       (if _attached_running w then [Banner "-" (container_name w) (style w)] else [])
       ++ [Sleep (poll_sleep w)])).
  { destruct w as [n s t si p [] al]; reflexivity. }
  split; [exact Hnf|]. split; [reflexivity|]. split.
  - rewrite run_cons, Hnf. cbn [fst snd]. by rewrite <- app_assoc.
  - by rewrite run_cons.
Qed.

(** ** The source matcher *)

Section Matcher.
Implicit Types (c : Container.t) (client : DockerClient).

Lemma filter_all {A} (P : A → Prop) `{∀ x, Decision (P x)} (l : list A) :
  (∀ x, P x) → filter P l = l.
Proof.
  intros HP. induction l as [|x l IH]; [reflexivity|].
  rewrite filter_cons_True by apply HP. by rewrite IH.
Qed.

Lemma contains_empty s : contains "" s = true.
Proof. by destruct s. Qed.

Lemma find_matching_containers_include client pattern exact :
  find_matching_containers client pattern exact true
  = if exact
    then filter (λ c, Container.name c = pattern) (containers_list client)
    else filter (λ c, contains (lower pattern) (lower (Container.name c)) = true)
           (containers_list client).
Proof. reflexivity. Qed.

Lemma find_matching_containers_exclude client pattern exact :
  find_matching_containers client pattern exact false
  = filter (λ c, is_tty_container c = false)
      (find_matching_containers client pattern exact true).
Proof. reflexivity. Qed.

(** Excluding TTY containers only removes matches. *)
Lemma find_matching_containers_sub client pattern exact include_tty c :
  c ∈ find_matching_containers client pattern exact include_tty →
  c ∈ find_matching_containers client pattern exact true.
Proof.
  destruct include_tty; [done|].
  rewrite find_matching_containers_exclude. intros Hc.
  by apply list_elem_of_filter in Hc as [_ Hc].
Qed.
End Matcher.

(** C8. A container whose [reload()] raises in the interactive check is
    classified as not interactive, and so, when it is listed by the
    runtime and passes the name test of the mode (equality with the pattern
    in exact mode, containment of the lowercased pattern in the lowercased
    name otherwise), the matcher returns it, also when TTY containers are
    excluded.  This holds whatever [str.lower] does ([str_lower] is any
    function); [find_matching_containers] is the matcher at [lower]. *)
Theorem failed_tty_check_is_included
    (str_lower : string → string) (client : DockerClient) (pattern : string)
    (exact : bool) (c : Container.t) :
  Container.reload c = None →
  c ∈ containers_list client →
  (if exact then Container.name c = pattern
   else contains (str_lower pattern) (str_lower (Container.name c)) = true) →
  is_tty_container c = false
  ∧ ∀ include_tty,
      c ∈ find_matching_containers_with str_lower client pattern exact include_tty.
Proof.
  intros Hfail Hlisted Hname.
  assert (Htty : is_tty_container c = false) by (unfold is_tty_container; by rewrite Hfail).
  split; [exact Htty|]. intros include_tty.
  assert (Hmatch : c ∈ find_matching_containers_with str_lower client pattern exact true).
  { unfold find_matching_containers_with. cbn [negb].
    destruct exact; apply list_elem_of_filter; by split. }
  destruct include_tty; [exact Hmatch|].
  unfold find_matching_containers_with in *. cbn [negb] in *.
  apply list_elem_of_filter. by split.
Qed.

Lemma failed_tty_check_is_included_witness :
  is_tty_container (unreadable "api") = false
  ∧ ∀ include_tty,
      unreadable "api"
      ∈ find_matching_containers shell_and_unreadable "API" false include_tty.
Proof.
  apply (failed_tty_check_is_included lower shell_and_unreadable "API" false
           (unreadable "api")).
  - reflexivity.
  - apply list_elem_of_further, list_elem_of_here.
  - reflexivity.
Defined.

(** With TTY containers excluded, the shell is dropped and the container
    whose configuration cannot be read is kept. *)
Example exclude_tty_keeps_unreadable :
  find_matching_containers {| containers_list := [shell "api-sh"; unreadable "api"] |}
    "API" false false
  = [unreadable "api"].
Proof. vm_compute. reflexivity. Qed.

(** C10. In substring mode the empty pattern matches every listed
    container: the result is the whole listing when TTY containers are
    included, and the listing without the containers found interactive
    when they are excluded. *)
Theorem empty_pattern_matches_all (client : DockerClient) (include_tty : bool) :
  find_matching_containers client "" false include_tty
  = if include_tty
    then containers_list client
    else filter (λ c, is_tty_container c = false) (containers_list client).
Proof.
  assert (Hall : find_matching_containers client "" false true = containers_list client).
  { rewrite find_matching_containers_include. apply filter_all.
    intros c. apply contains_empty. }
  destruct include_tty; [exact Hall|].
  by rewrite find_matching_containers_exclude, Hall.
Qed.

(** ** The worker supervisor *)

Section Supervisor.
Implicit Types (m : gmap string LogWorker) (used : gset string)
  (matches : list Container.t) (evs : list event).

Lemma elem_of_alive_styles m s :
  s ∈ alive_styles m ↔ ∃ name w, m !! name = Some w ∧ alive w = true ∧ style w = s.
Proof.
  unfold alive_styles. rewrite elem_of_list_to_set, list_elem_of_omap. split.
  - intros ([name w] & Hin & Hs). apply elem_of_map_to_list in Hin.
    cbn in Hs. destruct (alive w) eqn:Hal; [|discriminate].
    exists name, w. by simplify_eq.
  - intros (name & w & Hm & Hal & Hs). exists (name, w). split.
    + by apply elem_of_map_to_list.
    + cbn. by rewrite Hal, Hs.
Qed.

Lemma started_styles_cons_start w evs :
  started_styles (Start w :: evs) = {[style w]} ∪ started_styles evs.
Proof. reflexivity. Qed.

Lemma needs_worker_alive m name w :
  m !! name = Some w → alive w = true → needs_worker m name = false.
Proof. intros Hm Hal. unfold needs_worker. by rewrite Hm, Hal. Qed.

Lemma needs_worker_insert_ne m name k w :
  name ≠ k → needs_worker (<[name := w]> m) k = needs_worker m k.
Proof. intros Hne. unfold needs_worker. by rewrite lookup_insert_ne. Qed.

Lemma spawn_cons_new tail since c matches used m st :
  needs_worker m (Container.name c) = true →
  assign_style (Container.name c) used = Some st →
  spawn tail since (c :: matches) used m
  = '(m', evs) ← spawn tail since matches ({[st]} ∪ used)
                   (<[Container.name c := started_worker (Container.name c) st tail since]> m);
    Some (m', Start (started_worker (Container.name c) st tail since) :: evs).
Proof. intros Hn Ha. cbn [spawn]. by rewrite Hn, Ha. Qed.

Lemma spawn_cons_skip tail since c matches used m :
  needs_worker m (Container.name c) = false →
  spawn tail since (c :: matches) used m = spawn tail since matches used m.
Proof. intros Hn. cbn [spawn]. by rewrite Hn. Qed.

(** The pass returns: no style lookup fails. *)
Lemma spawn_is_Some tail since matches used m :
  is_Some (spawn tail since matches used m).
Proof.
  revert used m. induction matches as [|c rest IH]; intros used m; [by eexists|].
  destruct (needs_worker m (Container.name c)) eqn:Hn.
  - destruct (assign_style_is_Some (Container.name c) used) as [st Hst].
    rewrite (spawn_cons_new _ _ _ _ _ _ st Hn Hst).
    destruct (IH ({[st]} ∪ used)
                (<[Container.name c := started_worker (Container.name c) st tail since]> m))
      as [[m' evs] ->].
    by eexists.
  - rewrite spawn_cons_skip by done. apply IH.
Qed.

(** Every entry is as before, or is an alive worker started by the pass
    for a name that needed one. *)
Lemma spawn_entry tail since matches used m m' evs k :
  spawn tail since matches used m = Some (m', evs) →
  m' !! k = m !! k
  ∨ (needs_worker m k = true
     ∧ ∃ w', m' !! k = Some w' ∧ alive w' = true ∧ Start w' ∈ evs).
Proof.
  revert used m m' evs. induction matches as [|c rest IH]; intros used m m' evs Hsp.
  - cbn in Hsp. simplify_eq. by left.
  - destruct (needs_worker m (Container.name c)) eqn:Hn.
    + destruct (assign_style_is_Some (Container.name c) used) as [st Hst].
      rewrite (spawn_cons_new _ _ _ _ _ _ st Hn Hst) in Hsp.
      set (worker := started_worker (Container.name c) st tail since) in *.
      destruct (spawn tail since rest ({[st]} ∪ used) (<[Container.name c := worker]> m))
        as [[m1 evs1]|] eqn:Hrest; [|discriminate].
      cbn in Hsp. simplify_eq.
      destruct (IH _ _ _ _ Hrest) as [Heq | (Hn' & w' & Hm' & Hal & Hin)].
      * destruct (decide (Container.name c = k)) as [<-|Hne].
        -- right. split; [exact Hn|]. exists worker.
           rewrite Heq, lookup_insert_eq. split; [reflexivity|]. split; [reflexivity|]. left.
        -- left. by rewrite Heq, lookup_insert_ne.
      * destruct (decide (Container.name c = k)) as [<-|Hne].
        -- unfold needs_worker in Hn'. rewrite lookup_insert_eq in Hn'. discriminate.
        -- right. rewrite needs_worker_insert_ne in Hn' by done.
           split; [exact Hn'|]. exists w'. repeat split; auto. by right.
    + rewrite spawn_cons_skip in Hsp by done. eauto.
Qed.

Lemma spawn_keeps_alive tail since matches used m m' evs name :
  spawn tail since matches used m = Some (m', evs) →
  needs_worker m name = false → m' !! name = m !! name.
Proof.
  intros Hsp Hn. destruct (spawn_entry _ _ _ _ _ _ _ name Hsp) as [H|[H _]]; congruence.
Qed.

Lemma spawn_no_need_after tail since matches used m m' evs name :
  spawn tail since matches used m = Some (m', evs) →
  needs_worker m name = false → needs_worker m' name = false.
Proof.
  intros Hsp Hn. unfold needs_worker in *.
  by rewrite (spawn_keeps_alive _ _ _ _ _ _ _ _ Hsp Hn).
Qed.

(** After the pass every match is backed by an alive worker. *)
Lemma spawn_covers tail since matches used m m' evs c :
  spawn tail since matches used m = Some (m', evs) →
  c ∈ matches → needs_worker m' (Container.name c) = false.
Proof.
  revert used m m' evs. induction matches as [|c0 rest IH]; intros used m m' evs Hsp Hc.
  - by apply elem_of_nil in Hc.
  - destruct (needs_worker m (Container.name c0)) eqn:Hn.
    + destruct (assign_style_is_Some (Container.name c0) used) as [st Hst].
      rewrite (spawn_cons_new _ _ _ _ _ _ st Hn Hst) in Hsp.
      set (worker := started_worker (Container.name c0) st tail since) in *.
      destruct (spawn tail since rest ({[st]} ∪ used) (<[Container.name c0 := worker]> m))
        as [[m1 evs1]|] eqn:Hrest; [|discriminate].
      cbn in Hsp. simplify_eq.
      apply elem_of_cons in Hc as [->|Hc]; [|by eapply IH].
      eapply spawn_no_need_after; [exact Hrest|].
      unfold needs_worker. by rewrite lookup_insert_eq.
    + rewrite spawn_cons_skip in Hsp by done.
      apply elem_of_cons in Hc as [->|Hc]; [|by eapply IH].
      by eapply spawn_no_need_after.
Qed.

(** A pass over matches that all have an alive worker does nothing. *)
Lemma spawn_noop tail since matches used m :
  Forall (λ c, needs_worker m (Container.name c) = false) matches →
  spawn tail since matches used m = Some (m, []).
Proof.
  induction 1 as [|c rest Hc _ IH]; [reflexivity|].
  by rewrite spawn_cons_skip.
Qed.

Lemma spawn_events_start tail since matches used m m' evs :
  spawn tail since matches used m = Some (m', evs) → Forall is_start evs.
Proof.
  revert used m m' evs. induction matches as [|c rest IH]; intros used m m' evs Hsp.
  - cbn in Hsp. simplify_eq. constructor.
  - destruct (needs_worker m (Container.name c)) eqn:Hn.
    + destruct (assign_style_is_Some (Container.name c) used) as [st Hst].
      rewrite (spawn_cons_new _ _ _ _ _ _ st Hn Hst) in Hsp.
      destruct (spawn tail since rest _ _) as [[m1 evs1]|] eqn:Hrest; [|discriminate].
      cbn in Hsp. simplify_eq. constructor; [by eexists | by eapply IH].
    + rewrite spawn_cons_skip in Hsp by done. by eapply IH.
Qed.

(** Each style handed out avoids the styles in use at that moment,
    while the palette has a free one. *)
Lemma spawn_fresh tail since matches used m m' evs pre w post :
  spawn tail since matches used m = Some (m', evs) →
  evs = pre ++ Start w :: post →
  (∃ p, p ∈ STYLES ∧ p ∉ used ∪ started_styles pre) →
  style w ∉ used ∪ started_styles pre.
Proof.
  revert used m m' evs pre. induction matches as [|c rest IH];
    intros used m m' evs pre Hsp Hsplit Hfree.
  - cbn in Hsp. injection Hsp as <- <-. by destruct pre.
  - destruct (needs_worker m (Container.name c)) eqn:Hn.
    + destruct (assign_style_is_Some (Container.name c) used) as [st Hst].
      rewrite (spawn_cons_new _ _ _ _ _ _ st Hn Hst) in Hsp.
      set (worker := started_worker (Container.name c) st tail since) in *.
      destruct (spawn tail since rest ({[st]} ∪ used) (<[Container.name c := worker]> m))
        as [[m1 evs1]|] eqn:Hrest; [|discriminate].
      cbn in Hsp. injection Hsp as <- <-.
      destruct pre as [|e pre']; cbn [app] in Hsplit; injection Hsplit as Hhd Htl.
      * subst w. destruct Hfree as (p & Hp & Hout).
        assert (Hst' : st ∉ used).
        { eapply assign_style_free; [|exact Hst]. exists p. split; [exact Hp|].
          intros Hin. apply Hout, elem_of_union. by left. }
        change (started_styles []) with (∅ : gset string). cbn [style worker started_worker].
        rewrite elem_of_union. intros [Hin|Hin]; [done | by apply not_elem_of_empty in Hin].
      * subst e.
        rewrite started_styles_cons_start in *. cbn [style worker started_worker] in *.
        assert (Hnot : style w ∉ ({[st]} ∪ used) ∪ started_styles pre').
        { eapply IH; [exact Hrest | exact Htl |].
          destruct Hfree as (p & Hp & Hout). exists p. split; [exact Hp|].
          intros Hin. apply Hout. rewrite !elem_of_union in Hin |- *. tauto. }
        rewrite !elem_of_union in Hnot |- *. tauto.
    + rewrite spawn_cons_skip in Hsp by done. by eapply IH.
Qed.
End Supervisor.

(** The first pass over [fleet]: ["cache"] collides with ["api"] on
    ["bold red"] and gets the next style. *)
Example first_pass :
  (ensure_workers_for_matches fleet "" false "all" None false ∅)
  = Some (<["web" := started_worker "web" "blue" "all" None]>
          (<["cache" := started_worker "cache" "cyan" "all" None]>
           (<["api" := api_worker]> ∅)),
          [Start api_worker;
           Start (started_worker "cache" "cyan" "all" None);
           Start (started_worker "web" "blue" "all" None)]).
Proof. vm_compute. reflexivity. Qed.

(** C6. Reconciliation is idempotent: from any worker map a pass returns
    a worker map, and a second pass right after it (no thread has ended in
    between), over an unchanged list of matching names, returns the same
    map and an empty trace: it starts no worker and prints no banner. *)
Theorem reconcile_idempotent
    (client client2 : DockerClient) (pattern : string) (exact : bool)
    (tail tail2 : string) (since since2 : option Z) (include_tty : bool)
    (active_workers : gmap string LogWorker) :
  Container.name <$> find_matching_containers client2 pattern exact include_tty
  = Container.name <$> find_matching_containers client pattern exact include_tty →
  ∃ m1 evs1,
    ensure_workers_for_matches client pattern exact tail since include_tty active_workers
    = Some (m1, evs1)
    ∧ ensure_workers_for_matches client2 pattern exact tail2 since2 include_tty m1
      = Some (m1, []).
Proof.
  intros Hsame. unfold ensure_workers_for_matches.
  destruct (spawn_is_Some tail since
              (find_matching_containers client pattern exact include_tty)
              (alive_styles active_workers) active_workers) as [[m1 evs1] Hsp].
  exists m1, evs1. split; [exact Hsp|].
  apply spawn_noop, Forall_forall. intros c2 Hc2.
  assert (Hname : Container.name c2
            ∈ Container.name <$> find_matching_containers client pattern exact include_tty).
  { rewrite <- Hsame. by apply list_elem_of_fmap_2. }
  apply list_elem_of_fmap in Hname as (c & -> & Hc).
  by eapply spawn_covers.
Qed.

Lemma reconcile_idempotent_witness :
  ∃ m1 evs1,
    ensure_workers_for_matches fleet "" false "all" None false ∅ = Some (m1, evs1)
    ∧ ensure_workers_for_matches fleet_later "" false "all" None false m1 = Some (m1, []).
Proof.
  exact (reconcile_idempotent fleet fleet_later "" false "all" "all" None None false ∅
           eq_refl).
Defined.

Lemma elem_of_started_styles (evs : list event) (s : string) :
  s ∈ started_styles evs ↔ ∃ w, Start w ∈ evs ∧ style w = s.
Proof.
  unfold started_styles. rewrite elem_of_list_to_set, list_elem_of_omap. split.
  - intros (e & He & Hs). destruct e; try discriminate.
    injection Hs as <-. by eexists.
  - intros (w & Hw & <-). by exists (Start w).
Qed.

(** With ["bold red"] held by the alive worker of ["api"], the pass over
    [fleet] gives ["cache"], whose hashed style it is, the next one. *)
Example second_pass :
  ensure_workers_for_matches fleet "" false "all" None false (<["api" := api_worker]> ∅)
  = Some (<["web" := started_worker "web" "blue" "all" None]>
          (<["cache" := cache_worker]> (<["api" := api_worker]> ∅)),
          [Start cache_worker; Start (started_worker "web" "blue" "all" None)]).
Proof. vm_compute. reflexivity. Qed.

(** C7. A pass returns, and every worker it starts gets a style that no
    worker alive in the map at the start of the pass holds and that no
    worker started earlier in the pass was given, provided some style of
    the palette is still held by none of those workers. *)
Theorem reconcile_styles_distinct
    (client : DockerClient) (pattern : string) (exact : bool) (tail : string)
    (since : option Z) (include_tty : bool) (active_workers : gmap string LogWorker) :
  ∃ m' evs,
    ensure_workers_for_matches client pattern exact tail since include_tty active_workers
    = Some (m', evs)
    ∧ ∀ pre w post,
        evs = pre ++ Start w :: post →
        (∃ p, p ∈ STYLES
              ∧ (∀ name w0, active_workers !! name = Some w0 → alive w0 = true →
                            style w0 ≠ p)
              ∧ (∀ w1, Start w1 ∈ pre → style w1 ≠ p)) →
        (∀ name w0, active_workers !! name = Some w0 → alive w0 = true →
                    style w0 ≠ style w)
        ∧ (∀ w1, Start w1 ∈ pre → style w1 ≠ style w).
Proof.
  unfold ensure_workers_for_matches.
  destruct (spawn_is_Some tail since
              (find_matching_containers client pattern exact include_tty)
              (alive_styles active_workers) active_workers) as [[m' evs] Hsp].
  exists m', evs. split; [exact Hsp|].
  intros pre w post Hsplit (p & Hp & Hheld & Hgiven).
  assert (Hfresh : style w ∉ alive_styles active_workers ∪ started_styles pre).
  { eapply spawn_fresh; [exact Hsp | exact Hsplit |].
    exists p. split; [exact Hp|]. rewrite elem_of_union. intros [Hin|Hin].
    - apply elem_of_alive_styles in Hin as (name & w0 & Hw0 & Hal & Hst).
      by apply (Hheld name w0).
    - apply elem_of_started_styles in Hin as (w1 & Hw1 & Hst).
      by apply (Hgiven w1). }
  split.
  - intros name w0 Hw0 Hal Heq. apply Hfresh, elem_of_union. left.
    apply elem_of_alive_styles. by exists name, w0.
  - intros w1 Hw1 Heq. apply Hfresh, elem_of_union. right.
    apply elem_of_started_styles. by exists w1.
Qed.

(** In the pass of [second_pass], the style given to ["cache"] is not the
    one the alive worker of ["api"] holds. *)
Lemma reconcile_styles_distinct_witness :
  (∀ name w0, (<["api" := api_worker]> ∅ : gmap string LogWorker) !! name = Some w0 →
              alive w0 = true → style w0 ≠ style cache_worker)
  ∧ (∀ w1, Start w1 ∈ @nil event → style w1 ≠ style cache_worker).
Proof.
  destruct (reconcile_styles_distinct fleet "" false "all" None false
              (<["api" := api_worker]> ∅))
    as (m' & evs & Hens & Hfresh).
  rewrite second_pass in Hens. injection Hens as _ <-.
  apply (Hfresh [] cache_worker [Start (started_worker "web" "blue" "all" None)] eq_refl).
  exists "bold cyan". split; [apply list_elem_of_here|]. split.
  - intros name w0 Hw0 _. apply lookup_insert_Some in Hw0 as [[_ <-] | [_ Hw0]].
    + discriminate.
    + by rewrite lookup_empty in Hw0.
  - intros w1 Hw1. by apply elem_of_nil in Hw1.
Defined.

(** C9. Reconciliation only adds: a pass returns, every entry backed by
    an alive worker is the same entry afterwards, every name that had an
    entry still has one, an entry that changed belonged to a worker that
    was not alive and now holds an alive worker started by the pass, and
    the pass does nothing to the outside but start workers. *)
Theorem reconcile_additive_only
    (client : DockerClient) (pattern : string) (exact : bool) (tail : string)
    (since : option Z) (include_tty : bool) (active_workers : gmap string LogWorker) :
  ∃ m' evs,
    ensure_workers_for_matches client pattern exact tail since include_tty active_workers
    = Some (m', evs)
    ∧ (∀ name w, active_workers !! name = Some w → alive w = true →
                 m' !! name = Some w)
    ∧ (∀ name, is_Some (active_workers !! name) → is_Some (m' !! name))
    ∧ (∀ name w, active_workers !! name = Some w →
         m' !! name = Some w
         ∨ (alive w = false
            ∧ ∃ w', m' !! name = Some w' ∧ alive w' = true ∧ Start w' ∈ evs))
    ∧ Forall is_start evs.
Proof.
  unfold ensure_workers_for_matches.
  destruct (spawn_is_Some tail since
              (find_matching_containers client pattern exact include_tty)
              (alive_styles active_workers) active_workers) as [[m' evs] Hsp].
  exists m', evs. split; [exact Hsp|].
  assert (Hentry : ∀ name w, active_workers !! name = Some w →
            m' !! name = Some w
            ∨ (alive w = false
               ∧ ∃ w', m' !! name = Some w' ∧ alive w' = true ∧ Start w' ∈ evs)).
  { intros name w Hw.
    destruct (spawn_entry _ _ _ _ _ _ _ name Hsp) as [Heq | [Hn Hnew]].
    - left. by rewrite Heq.
    - right. split; [|exact Hnew].
      unfold needs_worker in Hn. rewrite Hw in Hn. by destruct (alive w). }
  split; [|split; [|split; [exact Hentry | by eapply spawn_events_start]]].
  - intros name w Hw Hal. destruct (Hentry name w Hw) as [H | [H _]]; [exact H | congruence].
  - intros name [w Hw].
    destruct (Hentry name w Hw) as [H | (_ & w' & H & _)]; by eexists.
Qed.

(** A map with an alive worker for ["web"], which [fleet] filtered on
    ["api"] does not match, and a dead one for ["api"]: the first entry
    stays, the second is replaced by a started worker. *)
Lemma reconcile_additive_only_witness :
  ∃ m',
    fst <$> ensure_workers_for_matches fleet "api" true "all" None false
              (<["web" := started_worker "web" "blue" "all" None]>
               (<["api" := dead_api_worker]> ∅))
    = Some m'
    ∧ m' !! "web" = Some (started_worker "web" "blue" "all" None)
    ∧ is_Some (m' !! "api").
Proof.
  destruct (reconcile_additive_only fleet "api" true "all" None false
              (<["web" := started_worker "web" "blue" "all" None]>
               (<["api" := dead_api_worker]> ∅)))
    as (m' & evs & Hens & Hkeep & Hdom & _).
  exists m'. split; [by rewrite Hens|]. split.
  - apply Hkeep; reflexivity.
  - apply Hdom. by eexists.
Defined.

(** ** The main loop *)

(** C5 as stated fails: with a record for ["api"] whose thread has ended,
    no alive worker backs the target name, and yet an iteration of the
    main loop in exact mode does not reconcile. *)
Lemma dead_record_blocks_reconcile :
  needs_worker (<["api" := dead_api_worker]> ∅) "api" = true
  ∧ main_loop_body exact_api fleet 10
      {| active_workers := <["api" := dead_api_worker]> ∅; last_refresh := 0 |}
    = Some ({| active_workers := <["api" := dead_api_worker]> ∅; last_refresh := 0 |},
            [Sleep (2 # 10)]).
Proof. split; vm_compute; reflexivity. Qed.

(** C5, amended. In exact mode an iteration of the main loop returns, and
    it calls the reconciliation if and only if the worker map is empty:
    any record, of an alive worker or of one whose thread has ended,
    keeps the reconciliation from running. *)
Theorem exact_mode_reconciles_iff_no_record
    (o : Options) (client : DockerClient) (now : Q) (st : LoopState) :
  opt_exact o = true →
  ∃ st' evs,
    main_loop_body o client now st = Some (st', evs)
    ∧ (Reconcile ∈ evs ↔ active_workers st = ∅).
Proof.
  intros Hexact. unfold main_loop_body. rewrite Hexact. cbn [negb andb mbind option_bind].
  destruct (decide (active_workers st = ∅)) as [Hempty|Hsome].
  - rewrite bool_decide_eq_true_2 by done. unfold reconcile, ensure_workers_for_matches.
    destruct (spawn_is_Some (opt_tail o) (opt_since o)
                (find_matching_containers client (opt_pattern o) (opt_exact o)
                   (opt_include_tty o))
                (alive_styles (active_workers st)) (active_workers st)) as [[m evs] ->].
    cbn. eexists _, _. split; [reflexivity|]. split; [done|]. intros _. by left.
  - rewrite bool_decide_eq_false_2 by done. cbn.
    eexists _, _. split; [reflexivity|]. split; [|done].
    intros Hin. apply list_elem_of_singleton in Hin. discriminate.
Qed.

Lemma exact_mode_reconciles_iff_no_record_witness :
  ∃ st' evs,
    main_loop_body exact_api fleet 10 {| active_workers := ∅; last_refresh := 0 |}
    = Some (st', evs)
    ∧ (Reconcile ∈ evs ↔ (∅ : gmap string LogWorker) = ∅).
Proof.
  exact (exact_mode_reconciles_iff_no_record exact_api fleet 10
           {| active_workers := ∅; last_refresh := 0 |} eq_refl).
Defined.

(** With no record yet, the iteration reconciles and starts the worker. *)
Example exact_mode_first_iteration :
  main_loop_body exact_api fleet 10 {| active_workers := ∅; last_refresh := 0 |}
  = Some ({| active_workers := <["api" := api_worker]> ∅; last_refresh := 0 |},
          [Reconcile; Start api_worker; Sleep (2 # 10)]).
Proof. vm_compute. reflexivity. Qed.

(** * Further properties *)

(** ** The identity assigner *)

Lemma first_unused_palette_only start offs (used : gset string) fallback :
  first_unused start offs used fallback
  = first_unused start offs (used ∩ list_to_set STYLES) fallback.
Proof.
  induction offs as [|off rest IH]; [reflexivity|]. cbn [first_unused].
  destruct (STYLES !! ((start + off) mod length STYLES)) as [c|] eqn:Hc; [|reflexivity].
  cbn [mbind option_bind].
  assert (Hpal : c ∈ (list_to_set STYLES : gset string)).
  { apply elem_of_list_to_set. by eapply list_elem_of_lookup_2. }
  destruct (decide (c ∈ used)) as [Hin|Hout].
  - rewrite decide_True by (apply elem_of_intersection; by split). exact IH.
  - rewrite decide_False; [reflexivity|].
    intros Hboth. apply elem_of_intersection in Hboth as [Hin _]. by apply Hout.
Qed.

(** X1. [assign_style] never fails and never invents a style: for every
    name and every set of used styles it returns an entry of [STYLES]. *)
Theorem assign_style_returns_palette_style (name : string) (used_styles : gset string) :
  ∃ s, assign_style name used_styles = Some s ∧ s ∈ STYLES.
Proof.
  destruct (assign_style_is_Some name used_styles) as [s Hs].
  exists s. split; [exact Hs|]. by eapply assign_style_in_palette.
Qed.

(** X2. A name keeps its own color whenever that color is free: if the
    style at the hashed index of the name is not in use, [assign_style]
    returns it, whatever else is in use. *)
Theorem assign_style_prefers_hashed (name : string) (used_styles : gset string) (s : string) :
  STYLES !! hashed_index name = Some s →
  s ∉ used_styles →
  assign_style name used_styles = Some s.
Proof.
  intros Hs Hfree. unfold assign_style.
  change (seq 0 (length STYLES)) with (0 :: seq 1 17). cbn [first_unused].
  replace ((hashed_index name + 0) mod length STYLES) with (hashed_index name).
  - rewrite Hs. cbn [mbind option_bind]. by rewrite decide_False.
  - pose proof (hashed_index_lt name) as Hlt. rewrite STYLES_length in *. lia.
Qed.

Lemma assign_style_prefers_hashed_witness :
  assign_style "api" {["cyan"; "blue"]} = Some "bold red".
Proof.
  apply (assign_style_prefers_hashed "api" {["cyan"; "blue"]} "bold red").
  - vm_compute. reflexivity.
  - apply (bool_decide_unpack _). vm_compute. reflexivity.
Defined.

(** X3. Only palette styles count as used: styles in the used set that
    are not in [STYLES] have no effect on the result. *)
Theorem assign_style_ignores_foreign_styles (name : string) (used_styles : gset string) :
  assign_style name used_styles
  = assign_style name (used_styles ∩ list_to_set STYLES).
Proof. unfold assign_style. apply first_unused_palette_only. Qed.

(** ** The source matcher *)

Lemma prefix_refl s : String.prefix s s = true.
Proof.
  induction s as [|c s IH]; [reflexivity|]. cbn.
  destruct (Ascii.ascii_dec c c); [exact IH | done].
Qed.

Lemma contains_refl s : contains s s = true.
Proof. destruct s; cbn [contains]; by rewrite prefix_refl. Qed.

Lemma is_tty_container_false c a cfg :
  is_tty_container c = false →
  Container.reload c = Some a → Container.Config a = Some cfg →
  Container.Tty cfg ≠ Some true ∧ Container.OpenStdin cfg ≠ Some true.
Proof.
  unfold is_tty_container. intros Htty Hr Hcfg.
  rewrite Hr in Htty. cbn in Htty. rewrite Hcfg in Htty. cbn in Htty.
  apply orb_false_iff in Htty as [Ht Ho].
  split; intros Heq; rewrite Heq in *; discriminate.
Qed.

(** X4. With TTY containers excluded, no container of the result has a
    readable configuration with [Tty] or [OpenStdin] set. *)
Theorem exclude_tty_returns_no_interactive
    (client : DockerClient) (pattern : string) (exact : bool)
    (c : Container.t) (a : Container.attrs) (cfg : Container.config) :
  c ∈ find_matching_containers client pattern exact false →
  Container.reload c = Some a →
  Container.Config a = Some cfg →
  Container.Tty cfg ≠ Some true ∧ Container.OpenStdin cfg ≠ Some true.
Proof.
  rewrite find_matching_containers_exclude. intros Hc.
  apply list_elem_of_filter in Hc as [Htty _]. by apply is_tty_container_false.
Qed.

Lemma exclude_tty_returns_no_interactive_witness :
  Container.Tty (Container.Cfg (Some false) (Some false)) ≠ Some true
  ∧ Container.OpenStdin (Container.Cfg (Some false) (Some false)) ≠ Some true.
Proof.
  apply (exclude_tty_returns_no_interactive fleet "api" true
           (container "api" "running" [])
           (Container.Attrs "running" (Some (Container.Cfg (Some false) (Some false))))
           (Container.Cfg (Some false) (Some false))).
  - assert (H : find_matching_containers fleet "api" true false
                = [container "api" "running" []]) by (vm_compute; reflexivity).
    rewrite H. apply list_elem_of_here.
  - reflexivity.
  - reflexivity.
Defined.

(** X5. The matcher only selects: its result is the listing with some
    containers left out, in the order of the listing, and every container
    it returns passes the name test of the mode, equality with the pattern
    in exact mode and containment of the lowercased pattern in the
    lowercased name otherwise.  This holds whatever [str.lower] does
    ([str_lower] is any function), so for [find_matching_containers], the
    matcher at [lower], too. *)
Theorem find_matching_containers_selects
    (str_lower : string → string) (client : DockerClient) (pattern : string)
    (exact include_tty : bool) :
  find_matching_containers_with str_lower client pattern exact include_tty
    `sublist_of` containers_list client
  ∧ ∀ c, c ∈ find_matching_containers_with str_lower client pattern exact include_tty →
      if exact then Container.name c = pattern
      else contains (str_lower pattern) (str_lower (Container.name c)) = true.
Proof.
  split.
  - unfold find_matching_containers_with.
    destruct include_tty, exact; cbn [negb];
      repeat (etrans; [apply sublist_filter|]); reflexivity.
  - intros c. unfold find_matching_containers_with.
    destruct include_tty, exact; cbn [negb]; intros Hc;
      repeat (apply list_elem_of_filter in Hc as [? Hc]); done.
Qed.

(** X6. In substring mode the case of the pattern does not matter:
    whatever [str.lower] does, a pattern that its lowercase form leaves
    unchanged when lowercased again (as every ASCII pattern is) gives the
    same result as its lowercase form. *)
Theorem substring_pattern_case_insensitive
    (str_lower : string → string) (client : DockerClient) (pattern : string)
    (include_tty : bool) :
  str_lower (str_lower pattern) = str_lower pattern →
  find_matching_containers_with str_lower client pattern false include_tty
  = find_matching_containers_with str_lower client (str_lower pattern) false include_tty.
Proof. intros Hidem. unfold find_matching_containers_with. by rewrite Hidem. Qed.

Lemma substring_pattern_case_insensitive_witness :
  find_matching_containers fleet "API" false false
  = find_matching_containers fleet (lower "API") false false.
Proof.
  apply (substring_pattern_case_insensitive lower fleet "API" false).
  reflexivity.
Defined.

(** X7. Substring mode finds whatever exact mode finds: a container
    returned for a pattern in exact mode is returned for the same pattern
    in substring mode. *)
Theorem exact_match_is_substring_match
    (client : DockerClient) (pattern : string) (include_tty : bool) (c : Container.t) :
  c ∈ find_matching_containers client pattern true include_tty →
  c ∈ find_matching_containers client pattern false include_tty.
Proof.
  assert (Hincl : c ∈ find_matching_containers client pattern true true →
                  c ∈ find_matching_containers client pattern false true).
  { rewrite !find_matching_containers_include. intros Hc.
    apply list_elem_of_filter in Hc as [<- Hc].
    apply list_elem_of_filter. split; [apply contains_refl | exact Hc]. }
  destruct include_tty; [exact Hincl|].
  rewrite !find_matching_containers_exclude. intros Hc.
  apply list_elem_of_filter in Hc as [Htty Hc].
  apply list_elem_of_filter. split; [exact Htty | by apply Hincl].
Qed.

Lemma exact_match_is_substring_match_witness :
  container "api" "running" [] ∈ find_matching_containers fleet "api" false false.
Proof.
  apply (exact_match_is_substring_match fleet "api" false (container "api" "running" [])).
  assert (H : find_matching_containers fleet "api" true false
              = [container "api" "running" []]) by (vm_compute; reflexivity).
  rewrite H. apply list_elem_of_here.
Defined.

(** ** The tail worker *)

Section WorkerTraces.
Implicit Types (w : LogWorker) (got : lookup) (obs : list (bool * lookup)).

Lemma alternation_app name st attached n k :
  alternation name st attached n
  ++ alternation name st (if Nat.even n then attached else negb attached) k
  = alternation name st attached (n + k).
Proof.
  revert attached. induction n as [|n IH]; intros attached; [reflexivity|].
  cbn [alternation Nat.add app]. rewrite <- IH. do 2 f_equal.
  rewrite Nat.even_succ, <- Nat.negb_even.
  destruct (Nat.even n), attached; reflexivity.
Qed.

(** An iteration prints a banner exactly when it flips the flag. *)
Lemma run_iteration_alternation w got :
  ∃ n, banners (run_iteration w got).2
       = alternation (container_name w) (style w) (_attached_running w) n
     ∧ _attached_running (run_iteration w got).1
       = if Nat.even n then _attached_running w else negb (_attached_running w).
Proof.
  assert (Hstop : ∃ n, banners (stop_branch w).2
       = alternation (container_name w) (style w) (_attached_running w) n
     ∧ _attached_running (stop_branch w).1
       = if Nat.even n then _attached_running w else negb (_attached_running w)).
  { unfold stop_branch. destruct (_attached_running w) eqn:Hflag.
    - by exists 1.
    - exists 0. split; [reflexivity | exact Hflag]. }
  destruct got as [| |c]; cbn [run_iteration]; [exact Hstop | by exists 0 |].
  destruct (Container.reload c) as [a|]; [|by exists 0].
  destruct (decide (Container.status a ≠ "running")); [exact Hstop|].
  destruct (_attached_running w) eqn:Hflag; cbn [negb fst snd].
  - exists 0. rewrite banners_app, follow_no_banner. split; [reflexivity | exact Hflag].
  - exists 1. rewrite banners_app, follow_no_banner. split; reflexivity.
Qed.

Lemma follow_own w chunks ending : Forall (own_event w) (follow w chunks ending).
Proof.
  induction chunks as [|[stop text] rest IH]; cbn [follow].
  - destruct ending; repeat constructor.
  - destruct stop; [constructor|]. apply Forall_app. split; [|exact IH].
    destruct (decide (rstrip_newline text = "")); repeat constructor.
Qed.

Lemma own_event_flag w b e : own_event (set_attached_running b w) e ↔ own_event w e.
Proof. by destruct e. Qed.

Lemma run_iteration_own w got : Forall (own_event w) (run_iteration w got).2.
Proof.
  assert (Hstop : Forall (own_event w) (stop_branch w).2).
  { unfold stop_branch. destruct (_attached_running w); repeat constructor. }
  destruct got as [| |c]; cbn [run_iteration]; [exact Hstop | repeat constructor |].
  destruct (Container.reload c) as [a|]; [|repeat constructor].
  destruct (decide (Container.status a ≠ "running")); [exact Hstop|].
  destruct (_attached_running w); cbn [negb fst snd]; apply Forall_app; split;
    try (repeat constructor); try apply follow_own.
  eapply Forall_impl; [apply follow_own|]. intros e. apply own_event_flag.
Qed.

Lemma run_polls_then w gots obs :
  run w (polls gots ++ obs)
  = ((run (run w (polls gots)).1 obs).1,
     (run w (polls gots)).2 ++ (run (run w (polls gots)).1 obs).2).
Proof.
  revert w. induction gots as [|got rest IH]; intros w.
  - change (polls [] ++ obs) with obs.
    change (run w (polls [])) with (w, @nil event). cbn [fst snd app].
    by destruct (run w obs).
  - change (polls (got :: rest) ++ obs) with ((false, got) :: (polls rest ++ obs)).
    change (polls (got :: rest)) with ((false, got) :: polls rest).
    rewrite !run_cons, IH. cbn [fst snd]. by rewrite app_assoc.
Qed.

End WorkerTraces.

(** X8. Whatever a worker observes, its banners alternate: the first one
    is ["+"] for a worker that is not attached (["-"] for an attached
    one), each next one is the other sign, all carry the worker's name and
    style, and the attached flag at the end tells the sign of the last
    banner (it has flipped once per banner). *)
Theorem worker_banners_alternate (w : LogWorker) (obs : list (bool * lookup)) :
  ∃ n, banners (run w obs).2
       = alternation (container_name w) (style w) (_attached_running w) n
     ∧ _attached_running (run w obs).1
       = if Nat.even n then _attached_running w else negb (_attached_running w).
Proof.
  revert w. induction obs as [|[stop got] rest IH]; intros w; [by exists 0|].
  destruct stop; [by exists 0|]. rewrite run_cons. cbn [fst snd].
  destruct (run_iteration_alternation w got) as (n & Hb1 & Hf1).
  destruct (IH (run_iteration w got).1) as (k & Hb2 & Hf2).
  rewrite run_iteration_name, run_iteration_style, Hf1 in Hb2.
  exists (n + k). split.
  - by rewrite banners_app, Hb1, Hb2, alternation_app.
  - rewrite Hf2, Hf1, Nat.even_add.
    by destruct (Nat.even n), (Nat.even k), (_attached_running w).
Qed.


(** X9. A worker that is not attached and whose lookups all fail (not
    found, another error, or a reload that raises) prints nothing: its
    trace is one sleep of [poll_sleep] per poll, and it is left as it was,
    ready for the next poll. *)
Theorem worker_never_found_is_silent (w : LogWorker) (gots : list lookup) :
  _attached_running w = false →
  Forall lookup_fails gots →
  run w (polls gots) = (w, (λ _, Sleep (poll_sleep w)) <$> gots).
Proof.
  intros Hflag Hall. induction Hall as [|got rest Hgot _ IH]; [reflexivity|].
  change (polls (got :: rest)) with ((false, got) :: polls rest).
  assert (Hit : run_iteration w got = (w, [Sleep (poll_sleep w)])).
  { destruct got as [| |c]; cbn [run_iteration]; [|reflexivity|].
    - unfold stop_branch. by rewrite Hflag.
    - cbn in Hgot. by rewrite Hgot. }
  rewrite run_cons, Hit. cbn [fst snd]. by rewrite IH.
Qed.

Lemma worker_never_found_is_silent_witness :
  run api_worker (polls [NotFound; LookupError; Found (unreadable "api")])
  = (api_worker, [Sleep (1 # 2); Sleep (1 # 2); Sleep (1 # 2)]).
Proof.
  apply (worker_never_found_is_silent api_worker
           [NotFound; LookupError; Found (unreadable "api")]).
  - reflexivity.
  - repeat constructor.
Defined.

(** X10. A worker speaks only for itself: every banner and every log line
    of its trace carries its own container name and style, every sleep
    lasts its [poll_sleep], and it starts no thread. *)
Theorem worker_events_are_its_own (w : LogWorker) (obs : list (bool * lookup)) :
  Forall (own_event w) (run w obs).2.
Proof.
  revert w. induction obs as [|[stop got] rest IH]; intros w; [constructor|].
  destruct stop; [constructor|]. rewrite run_cons. cbn [snd].
  apply Forall_app. split; [apply run_iteration_own|].
  rewrite (run_iteration_fields w got).
  eapply Forall_impl; [apply IH|]. intros e. apply own_event_flag.
Qed.

(** X11. Cancellation is silent: when the worker finds the stop event set
    at the loop test, after any polls, its thread ends there; nothing is
    added to the trace, no closing banner even if it is attached, and
    later observations are not looked at. *)
Theorem worker_cancel_is_silent
    (w : LogWorker) (gots : list lookup) (got : lookup) (rest : list (bool * lookup)) :
  run w (polls gots ++ (true, got) :: rest)
  = (set_alive false (run w (polls gots)).1, (run w (polls gots)).2).
Proof. rewrite run_polls_then. cbn [run fst snd]. by rewrite app_nil_r. Qed.

(** X12. What a stream prints: the chunks that arrive before the stop
    event is seen, each without its trailing newlines, the empty ones left
    out, in the order of arrival, under the worker's name and style; and
    then one sleep if the stream ended by raising, none if it ended
    normally or was left because of the stop event. *)
Theorem follow_prints_lines_in_order
    (w : LogWorker) (chunks : list (bool * string)) (ending : Container.stream_end) :
  follow w chunks ending
  = ((λ line, LogLine (container_name w) line (style w))
       <$> filter (λ line, line ≠ "") (rstrip_newline <$> before_stop chunks))
    ++ (if existsb fst chunks then []
        else match ending with
             | Container.Exhausted => []
             | _ => [Sleep (poll_sleep w)]
             end).
Proof.
  induction chunks as [|[stop text] rest IH]; cbn [follow before_stop existsb fst].
  - by destruct ending.
  - destruct stop; [reflexivity|]. cbn [orb fmap list_fmap]. rewrite IH.
    destruct (decide (rstrip_newline text = "")) as [Heq|Hne].
    + by rewrite filter_cons_False by (intros H; by apply H).
    + by rewrite filter_cons_True by done.
Qed.

(** ** The worker supervisor *)

Section SupervisorPasses.
Implicit Types (m : gmap string LogWorker) (used : gset string)
  (matches : list Container.t) (evs : list event).

Lemma started_workers_cons_start w evs :
  started_workers (Start w :: evs) = w :: started_workers evs.
Proof. reflexivity. Qed.

Lemma elem_of_started_workers w evs : w ∈ started_workers evs ↔ Start w ∈ evs.
Proof.
  unfold started_workers. rewrite list_elem_of_omap. split.
  - intros (e & He & Hw). destruct e; try discriminate. by simplify_eq.
  - intros He. by exists (Start w).
Qed.

(** The two ways the loop handles its first match. *)
Lemma spawn_cons_inv tail since c matches used m m' evs :
  spawn tail since (c :: matches) used m = Some (m', evs) →
  (needs_worker m (Container.name c) = false
   ∧ spawn tail since matches used m = Some (m', evs))
  ∨ (∃ st evs1,
       needs_worker m (Container.name c) = true
       ∧ assign_style (Container.name c) used = Some st
       ∧ evs = Start (started_worker (Container.name c) st tail since) :: evs1
       ∧ spawn tail since matches ({[st]} ∪ used)
           (<[Container.name c := started_worker (Container.name c) st tail since]> m)
         = Some (m', evs1)).
Proof.
  intros Hsp. destruct (needs_worker m (Container.name c)) eqn:Hn.
  - right. destruct (assign_style_is_Some (Container.name c) used) as [st Hst].
    rewrite (spawn_cons_new _ _ _ _ _ _ st Hn Hst) in Hsp.
    destruct (spawn tail since matches _ _) as [[m1 evs1]|] eqn:Hrest; [|discriminate].
    cbn in Hsp. injection Hsp as <- <-. by exists st, evs1.
  - left. rewrite spawn_cons_skip in Hsp by done. by split.
Qed.

Lemma needs_worker_insert_started m name st tail since :
  needs_worker (<[name := started_worker name st tail since]> m) name = false.
Proof. unfold needs_worker. by rewrite lookup_insert_eq. Qed.

(** A started worker is the one built for a match, with a palette style,
    and it is the entry of its name at the end of the pass. *)
Lemma spawn_started tail since matches used m m' evs w :
  spawn tail since matches used m = Some (m', evs) →
  Start w ∈ evs →
  ∃ c st, c ∈ matches ∧ st ∈ STYLES
          ∧ w = started_worker (Container.name c) st tail since
          ∧ needs_worker m (Container.name c) = true
          ∧ m' !! Container.name c = Some w.
Proof.
  revert used m m' evs. induction matches as [|c rest IH]; intros used m m' evs Hsp Hw.
  - cbn in Hsp. injection Hsp as <- <-. by apply elem_of_nil in Hw.
  - apply spawn_cons_inv in Hsp as [[Hn Hsp] | (st & evs1 & Hn & Hst & -> & Hsp)].
    + destruct (IH _ _ _ _ Hsp Hw) as (c' & st & Hc' & H).
      exists c', st. split; [by right | exact H].
    + apply elem_of_cons in Hw as [Heq | Hw].
      * injection Heq as ->. exists c, st.
        split; [by left|]. split; [by eapply assign_style_in_palette|].
        split; [reflexivity|]. split; [exact Hn|].
        rewrite (spawn_keeps_alive _ _ _ _ _ _ _ _ Hsp (needs_worker_insert_started _ _ _ _ _)).
        apply lookup_insert_eq.
      * destruct (IH _ _ _ _ Hsp Hw) as (c' & st' & Hc' & Hst' & Hweq & Hn' & Hm').
        exists c', st'. split; [by right|]. split; [exact Hst'|].
        split; [exact Hweq|]. split; [|exact Hm'].
        destruct (decide (Container.name c = Container.name c')) as [Heq|Hne].
        -- rewrite <- Heq, needs_worker_insert_started in Hn'. discriminate.
        -- by rewrite needs_worker_insert_ne in Hn'.
Qed.

Lemma spawn_started_names_NoDup tail since matches used m m' evs :
  spawn tail since matches used m = Some (m', evs) →
  NoDup (container_name <$> started_workers evs).
Proof.
  revert used m m' evs. induction matches as [|c rest IH]; intros used m m' evs Hsp.
  - cbn in Hsp. injection Hsp as <- <-. constructor.
  - apply spawn_cons_inv in Hsp as [[Hn Hsp] | (st & evs1 & Hn & Hst & -> & Hsp)];
      [by eapply IH|].
    rewrite started_workers_cons_start, fmap_cons. constructor; [|by eapply IH].
    cbn [container_name started_worker]. intros Hin.
    apply list_elem_of_fmap in Hin as (w & Hname & Hw).
    apply elem_of_started_workers in Hw.
    destruct (spawn_started _ _ _ _ _ _ _ _ Hsp Hw) as (c' & st' & _ & _ & -> & Hn' & _).
    cbn in Hname. rewrite <- Hname, needs_worker_insert_started in Hn'. discriminate.
Qed.

Lemma assign_style_free_of_size name used s :
  size used < length STYLES → assign_style name used = Some s → s ∉ used.
Proof.
  intros Hsize. apply assign_style_free.
  destruct (first_unused_spec 0 (seq 0 (length STYLES)) used None)
    as [[Hall _] | (pre & off & post & c & _ & _ & Hc & Hfree & _)].
  - pose proof (palette_in_use_size used (full_turn_covers _ _ Hall)). lia.
  - exists c. split; [by eapply list_elem_of_lookup_2 | exact Hfree].
Qed.

Lemma spawn_distinct_styles tail since matches used m m' evs :
  spawn tail since matches used m = Some (m', evs) →
  size used + length (started_workers evs) ≤ length STYLES →
  NoDup (style <$> started_workers evs)
  ∧ ∀ w, w ∈ started_workers evs → style w ∉ used.
Proof.
  revert used m m' evs. induction matches as [|c rest IH]; intros used m m' evs Hsp Hcap.
  - cbn in Hsp. injection Hsp as <- <-. split; [constructor|].
    intros w Hw. by apply elem_of_nil in Hw.
  - apply spawn_cons_inv in Hsp as [[Hn Hsp] | (st & evs1 & Hn & Hst & -> & Hsp)];
      [by eapply IH|].
    rewrite started_workers_cons_start in *. cbn [length] in Hcap.
    assert (Hfree : st ∉ used).
    { eapply assign_style_free_of_size; [|exact Hst]. lia. }
    assert (Hsize : size ({[st]} ∪ used) = S (size used)).
    { rewrite size_union by (apply disjoint_singleton_l; exact Hfree).
      by rewrite size_singleton. }
    destruct (IH _ _ _ _ Hsp) as [Hnd Hout]; [lia|].
    split.
    + rewrite fmap_cons. constructor; [|exact Hnd].
      cbn [style started_worker]. intros Hin.
      apply list_elem_of_fmap in Hin as (w & -> & Hw).
      apply (Hout w Hw), elem_of_union. left. by apply elem_of_singleton.
    + intros w Hw. apply elem_of_cons in Hw as [->|Hw]; [exact Hfree|].
      intros Hin. apply (Hout w Hw), elem_of_union. by right.
Qed.

Lemma spawn_well_formed tail since matches used m m' evs :
  spawn tail since matches used m = Some (m', evs) →
  well_formed m → well_formed m'.
Proof.
  revert used m m' evs. induction matches as [|c rest IH]; intros used m m' evs Hsp Hwf.
  - cbn in Hsp. by injection Hsp as <- <-.
  - apply spawn_cons_inv in Hsp as [[Hn Hsp] | (st & evs1 & Hn & Hst & -> & Hsp)];
      [by eapply IH|].
    eapply IH; [exact Hsp|]. intros name w Hw.
    destruct (decide (Container.name c = name)) as [<-|Hne].
    + rewrite lookup_insert_eq in Hw. injection Hw as <-.
      split; [reflexivity | by eapply assign_style_in_palette].
    + rewrite lookup_insert_ne in Hw by done. by apply Hwf.
Qed.

Lemma spawn_untouched tail since matches used m m' evs name :
  spawn tail since matches used m = Some (m', evs) →
  name ∉ Container.name <$> matches →
  m' !! name = m !! name.
Proof.
  revert used m m' evs. induction matches as [|c rest IH]; intros used m m' evs Hsp Hout.
  - cbn in Hsp. by injection Hsp as <- <-.
  - rewrite fmap_cons, not_elem_of_cons in Hout. destruct Hout as [Hne Hout].
    apply spawn_cons_inv in Hsp as [[Hn Hsp] | (st & evs1 & Hn & Hst & -> & Hsp)];
      [by eapply IH|].
    rewrite (IH _ _ _ _ Hsp Hout). by rewrite lookup_insert_ne.
Qed.

Lemma alive_styles_well_formed m :
  well_formed m → alive_styles m ⊆ list_to_set STYLES.
Proof.
  intros Hwf s Hs. apply elem_of_alive_styles in Hs as (name & w & Hw & _ & <-).
  apply elem_of_list_to_set. by apply (Hwf name w).
Qed.

Lemma spawn_grows tail since matches used m m' evs :
  spawn tail since matches used m = Some (m', evs) → grows m m'.
Proof.
  intros Hsp. split.
  - intros name w Hw Hal.
    rewrite (spawn_keeps_alive _ _ _ _ _ _ _ name Hsp (needs_worker_alive _ _ _ Hw Hal)).
    exact Hw.
  - intros name Hsome.
    destruct (spawn_entry _ _ _ _ _ _ _ name Hsp) as [-> | (_ & w' & -> & _)]; eauto.
Qed.
End SupervisorPasses.

(** X14. After a pass every matching container is tailed: the pass
    returns, and for each container of the match list the map holds, under
    its name, a worker that is alive. *)
Theorem reconcile_covers_matches
    (client : DockerClient) (pattern : string) (exact : bool) (tail : string)
    (since : option Z) (include_tty : bool) (active_workers : gmap string LogWorker) :
  ∃ m' evs,
    ensure_workers_for_matches client pattern exact tail since include_tty active_workers
    = Some (m', evs)
    ∧ ∀ c, c ∈ find_matching_containers client pattern exact include_tty →
        ∃ w, m' !! Container.name c = Some w ∧ alive w = true.
Proof.
  unfold ensure_workers_for_matches.
  destruct (spawn_is_Some tail since
              (find_matching_containers client pattern exact include_tty)
              (alive_styles active_workers) active_workers) as [[m' evs] Hsp].
  exists m', evs. split; [exact Hsp|]. intros c Hc.
  pose proof (spawn_covers _ _ _ _ _ _ _ c Hsp Hc) as Hn. unfold needs_worker in Hn.
  destruct (m' !! Container.name c) as [w|]; [|discriminate].
  exists w. split; [reflexivity|]. by destruct (alive w).
Qed.

(** X15. A pass starts workers only for matches that lack one: every
    worker it starts was built for a container of the match list whose
    name had no alive worker, with the tail and since options of the call,
    the default poll interval, the attached flag clear and a style of the
    palette, and it is the entry of that name when the pass returns. *)
Theorem reconcile_starts_only_for_matches
    (client : DockerClient) (pattern : string) (exact : bool) (tail : string)
    (since : option Z) (include_tty : bool) (active_workers m' : gmap string LogWorker)
    (evs : list event) (w : LogWorker) :
  ensure_workers_for_matches client pattern exact tail since include_tty active_workers
  = Some (m', evs) →
  Start w ∈ evs →
  ∃ c st,
    c ∈ find_matching_containers client pattern exact include_tty
    ∧ st ∈ STYLES
    ∧ w = started_worker (Container.name c) st tail since
    ∧ needs_worker active_workers (Container.name c) = true
    ∧ m' !! Container.name c = Some w.
Proof. unfold ensure_workers_for_matches. apply spawn_started. Qed.

Lemma reconcile_starts_only_for_matches_witness :
  ∃ c st,
    c ∈ find_matching_containers fleet "" false false
    ∧ st ∈ STYLES
    ∧ started_worker "cache" "cyan" "all" None
      = started_worker (Container.name c) st "all" None
    ∧ needs_worker ∅ (Container.name c) = true
    ∧ (<["web" := started_worker "web" "blue" "all" None]>
       (<["cache" := started_worker "cache" "cyan" "all" None]>
        (<["api" := api_worker]> (∅ : gmap string LogWorker)))) !! Container.name c
      = Some (started_worker "cache" "cyan" "all" None).
Proof.
  apply (reconcile_starts_only_for_matches fleet "" false "all" None false ∅ _
           [Start api_worker;
            Start (started_worker "cache" "cyan" "all" None);
            Start (started_worker "web" "blue" "all" None)]).
  - exact first_pass.
  - apply list_elem_of_further, list_elem_of_here.
Defined.

(** X16. A pass starts at most one worker per name: the container names
    of the workers it starts are pairwise different, even if the match
    list repeats a name. *)
Theorem reconcile_one_start_per_name
    (client : DockerClient) (pattern : string) (exact : bool) (tail : string)
    (since : option Z) (include_tty : bool) (active_workers : gmap string LogWorker) :
  ∃ m' evs,
    ensure_workers_for_matches client pattern exact tail since include_tty active_workers
    = Some (m', evs)
    ∧ NoDup (container_name <$> started_workers evs).
Proof.
  unfold ensure_workers_for_matches.
  destruct (spawn_is_Some tail since
              (find_matching_containers client pattern exact include_tty)
              (alive_styles active_workers) active_workers) as [[m' evs] Hsp].
  exists m', evs. split; [exact Hsp | by eapply spawn_started_names_NoDup].
Qed.

(** X17. Colors are unique until the palette is exhausted: let [held]
    be any set that holds the style of every worker alive in the map; if
    [held] and the workers a pass starts are together no more than the
    palette has, the styles given in the pass are pairwise different and
    no worker alive in the map holds one of them. *)
Theorem reconcile_unique_styles_under_capacity
    (client : DockerClient) (pattern : string) (exact : bool) (tail : string)
    (since : option Z) (include_tty : bool) (active_workers m' : gmap string LogWorker)
    (evs : list event) (held : gset string) :
  ensure_workers_for_matches client pattern exact tail since include_tty active_workers
  = Some (m', evs) →
  (∀ name w0, active_workers !! name = Some w0 → alive w0 = true → style w0 ∈ held) →
  size held + length (started_workers evs) ≤ length STYLES →
  NoDup (style <$> started_workers evs)
  ∧ ∀ w name w0,
      w ∈ started_workers evs →
      active_workers !! name = Some w0 → alive w0 = true →
      style w0 ≠ style w.
Proof.
  unfold ensure_workers_for_matches. intros Hsp Hheld Hcap.
  assert (Hsub : alive_styles active_workers ⊆ held).
  { intros s Hs. apply elem_of_alive_styles in Hs as (name & w0 & Hw0 & Hal & <-).
    by apply (Hheld name w0). }
  pose proof (subseteq_size _ _ Hsub) as Hle.
  destruct (spawn_distinct_styles _ _ _ _ _ _ _ Hsp) as [Hnd Hout]; [lia|].
  split; [exact Hnd|].
  intros w name w0 Hw Hw0 Hal Heq. apply (Hout w Hw).
  apply elem_of_alive_styles. by exists name, w0.
Qed.

(** In the pass of [second_pass]: one style is held, two workers are
    started, and neither gets the style of the alive worker of ["api"]. *)
Lemma reconcile_unique_styles_under_capacity_witness :
  NoDup (style <$> started_workers
           [Start cache_worker; Start (started_worker "web" "blue" "all" None)])
  ∧ ∀ w name w0,
      w ∈ started_workers
            [Start cache_worker; Start (started_worker "web" "blue" "all" None)] →
      (<["api" := api_worker]> ∅ : gmap string LogWorker) !! name = Some w0 →
      alive w0 = true →
      style w0 ≠ style w.
Proof.
  apply (reconcile_unique_styles_under_capacity fleet "" false "all" None false
           (<["api" := api_worker]> ∅) _ _ {["bold red"]} second_pass).
  - intros name w0 Hw0 _. apply lookup_insert_Some in Hw0 as [[_ <-] | [_ Hw0]].
    + by apply elem_of_singleton.
    + by rewrite lookup_empty in Hw0.
  - vm_compute. lia.
Defined.

(** X18. A pass keeps the worker map well formed: if every record is
    filed under the name of its container and holds a palette style, the
    same is true after the pass, and so the styles of the alive workers
    form a subset of the palette. *)
Theorem reconcile_keeps_well_formed
    (client : DockerClient) (pattern : string) (exact : bool) (tail : string)
    (since : option Z) (include_tty : bool) (active_workers : gmap string LogWorker) :
  well_formed active_workers →
  ∃ m' evs,
    ensure_workers_for_matches client pattern exact tail since include_tty active_workers
    = Some (m', evs)
    ∧ well_formed m'
    ∧ alive_styles m' ⊆ list_to_set STYLES.
Proof.
  intros Hwf. unfold ensure_workers_for_matches.
  destruct (spawn_is_Some tail since
              (find_matching_containers client pattern exact include_tty)
              (alive_styles active_workers) active_workers) as [[m' evs] Hsp].
  exists m', evs. split; [exact Hsp|].
  pose proof (spawn_well_formed _ _ _ _ _ _ _ Hsp Hwf) as Hwf'.
  split; [exact Hwf' | by apply alive_styles_well_formed].
Qed.

Lemma reconcile_keeps_well_formed_witness :
  ∃ m' evs,
    ensure_workers_for_matches fleet "" false "all" None false
      (<["api" := api_worker]> ∅) = Some (m', evs)
    ∧ well_formed m'
    ∧ alive_styles m' ⊆ list_to_set STYLES.
Proof.
  apply (reconcile_keeps_well_formed fleet "" false "all" None false
           (<["api" := api_worker]> ∅)).
  intros name w Hw. apply lookup_insert_Some in Hw as [[<- <-] | [_ Hw]].
  - split; [reflexivity|]. do 5 apply list_elem_of_further. apply list_elem_of_here.
  - by rewrite lookup_empty in Hw.
Defined.

(** X19. A pass touches only the names it matches: the entry of every
    other name, of an alive worker or not, present or absent, is after the
    pass what it was before. *)
Theorem reconcile_touches_only_matches
    (client : DockerClient) (pattern : string) (exact : bool) (tail : string)
    (since : option Z) (include_tty : bool) (active_workers m' : gmap string LogWorker)
    (evs : list event) (name : string) :
  ensure_workers_for_matches client pattern exact tail since include_tty active_workers
  = Some (m', evs) →
  name ∉ Container.name <$> find_matching_containers client pattern exact include_tty →
  m' !! name = active_workers !! name.
Proof. unfold ensure_workers_for_matches. apply spawn_untouched. Qed.

Lemma reconcile_touches_only_matches_witness :
  (<["api" := api_worker]> (<["old" := dead_api_worker]> ∅) : gmap string LogWorker) !! "old"
  = (<["old" := dead_api_worker]> ∅ : gmap string LogWorker) !! "old".
Proof.
  apply (reconcile_touches_only_matches fleet "api" true "all" None false
           (<["old" := dead_api_worker]> ∅) _ [Start api_worker] "old").
  - vm_compute. reflexivity.
  - apply (bool_decide_unpack _). vm_compute. reflexivity.
Defined.

(** ** The start and the main loop of [logs] *)

Section MainLoop.
Implicit Types (m : gmap string LogWorker) (o : Options) (st : LoopState)
  (evs : list event) (client : DockerClient).

Lemma grows_refl m : grows m m.
Proof. by split. Qed.

Lemma grows_trans m1 m2 m3 : grows m1 m2 → grows m2 m3 → grows m1 m3.
Proof. intros [Ha Hd] [Ha' Hd']. split; eauto. Qed.

Lemma reconcile_some o client m :
  ∃ m' evs,
    ensure_workers_for_matches client (opt_pattern o) (opt_exact o) (opt_tail o)
      (opt_since o) (opt_include_tty o) m = Some (m', evs)
    ∧ reconcile o client m = Some (m', Reconcile :: evs)
    ∧ grows m m'.
Proof.
  unfold reconcile, ensure_workers_for_matches.
  destruct (spawn_is_Some (opt_tail o) (opt_since o)
              (find_matching_containers client (opt_pattern o) (opt_exact o)
                 (opt_include_tty o))
              (alive_styles m) m) as [[m' evs] Hsp].
  exists m', evs. rewrite Hsp. split; [reflexivity|]. split; [reflexivity|].
  by eapply spawn_grows.
Qed.

(** The body in substring mode. *)
Lemma main_loop_body_substring o client now st :
  opt_exact o = false →
  main_loop_body o client now st
  = if Qle_bool (opt_refresh o) (now - last_refresh st)
    then '(m, evs) ← reconcile o client (active_workers st);
         Some ({| active_workers := m; last_refresh := now |}, evs ++ [Sleep (2 # 10)])
    else Some (st, [Sleep (2 # 10)]).
Proof.
  intros Hexact. unfold main_loop_body. rewrite Hexact. cbn [negb andb].
  destruct (Qle_bool (opt_refresh o) (now - last_refresh st)); [|reflexivity].
  destruct (reconcile o client (active_workers st)) as [[m evs]|]; reflexivity.
Qed.

(** The body in exact mode. *)
Lemma main_loop_body_exact o client now st :
  opt_exact o = true →
  main_loop_body o client now st
  = if bool_decide (active_workers st = ∅)
    then '(m, evs) ← reconcile o client (active_workers st);
         Some ({| active_workers := m; last_refresh := last_refresh st |},
               evs ++ [Sleep (2 # 10)])
    else Some (st, [Sleep (2 # 10)]).
Proof.
  intros Hexact. unfold main_loop_body. rewrite Hexact. cbn [negb andb mbind option_bind].
  destruct (bool_decide (active_workers st = ∅)); [|reflexivity].
  destruct (reconcile o client (active_workers st)) as [[m evs]|]; reflexivity.
Qed.

Lemma main_loop_body_grows o client now st :
  ∃ st' evs, main_loop_body o client now st = Some (st', evs)
             ∧ grows (active_workers st) (active_workers st').
Proof.
  destruct (reconcile_some o client (active_workers st)) as (m' & evs & _ & Hrec & Hg).
  destruct (opt_exact o) eqn:Hexact.
  - rewrite main_loop_body_exact by done.
    destruct (bool_decide (active_workers st = ∅)).
    + rewrite Hrec. by eexists _, _.
    + eexists _, _. split; [reflexivity | apply grows_refl].
  - rewrite main_loop_body_substring by done.
    destruct (Qle_bool (opt_refresh o) (now - last_refresh st)).
    + rewrite Hrec. by eexists _, _.
    + eexists _, _. split; [reflexivity | apply grows_refl].
Qed.

Lemma main_loop_cons o client now rest st st1 ev1 :
  main_loop_body o client now st = Some (st1, ev1) →
  main_loop o ((false, client, now) :: rest) st
  = '(st2, ev2) ← main_loop o rest st1; Some (st2, ev1 ++ ev2).
Proof. intros Hb. cbn [main_loop]. by rewrite Hb. Qed.

Lemma started_workers_app evs1 evs2 :
  started_workers (evs1 ++ evs2) = started_workers evs1 ++ started_workers evs2.
Proof. apply omap_app. Qed.

Lemma started_workers_reconcile evs :
  started_workers (Reconcile :: evs) = started_workers evs.
Proof. reflexivity. Qed.

Lemma exact_matches_named client pattern include_tty c :
  c ∈ find_matching_containers client pattern true include_tty →
  Container.name c = pattern.
Proof.
  intros Hc. apply find_matching_containers_sub in Hc.
  rewrite find_matching_containers_include in Hc.
  by apply list_elem_of_filter in Hc as [Hc _].
Qed.

Lemma NoDup_constant_length {A} (l : list A) (v : A) :
  NoDup l → (∀ x, x ∈ l → x = v) → length l ≤ 1.
Proof.
  intros Hnd Hall. destruct l as [|x [|y l]]; cbn; [lia | lia |]. exfalso.
  apply NoDup_cons in Hnd as [Hx _]. apply Hx.
  rewrite (Hall x), <- (Hall y); [left | right; left | left].
Qed.

(** A pass in exact mode starts at most one worker, for the pattern. *)
Lemma ensure_exact_starts o client m m' evs :
  opt_exact o = true →
  ensure_workers_for_matches client (opt_pattern o) (opt_exact o) (opt_tail o)
    (opt_since o) (opt_include_tty o) m = Some (m', evs) →
  length (started_workers evs) ≤ 1
  ∧ (∀ w, w ∈ started_workers evs → container_name w = opt_pattern o)
  ∧ (started_workers evs = [] → m' = m)
  ∧ (started_workers evs ≠ [] → m' ≠ ∅).
Proof.
  intros Hexact Hens. unfold ensure_workers_for_matches in Hens. rewrite Hexact in Hens.
  assert (Hnames : ∀ w, w ∈ started_workers evs → container_name w = opt_pattern o).
  { intros w Hw. apply elem_of_started_workers in Hw.
    destruct (spawn_started _ _ _ _ _ _ _ _ Hens Hw) as (c & st & Hc & _ & -> & _).
    by apply exact_matches_named in Hc. }
  split; [|split; [exact Hnames | split]].
  - rewrite <- (length_fmap container_name).
    apply (NoDup_constant_length _ (opt_pattern o)).
    + by eapply spawn_started_names_NoDup.
    + intros n Hn. apply list_elem_of_fmap in Hn as (w & -> & Hw). by apply Hnames.
  - intros Hnone. apply map_eq. intros name.
    destruct (spawn_entry _ _ _ _ _ _ _ name Hens) as [Heq | (_ & w' & _ & _ & Hin)];
      [exact Heq|].
    apply elem_of_started_workers in Hin. rewrite Hnone in Hin.
    by apply elem_of_nil in Hin.
  - intros Hsome Hempty. destruct (started_workers evs) as [|w ws] eqn:Hws; [done|].
    assert (Hw : Start w ∈ evs).
    { apply elem_of_started_workers. rewrite Hws. left. }
    destruct (spawn_started _ _ _ _ _ _ _ _ Hens Hw) as (c & st & _ & _ & _ & _ & Hm').
    rewrite Hempty, lookup_empty in Hm'. discriminate.
Qed.

(** Once a record exists, the loop in exact mode starts nothing. *)
Lemma main_loop_exact_settled o obs st :
  opt_exact o = true → active_workers st ≠ ∅ →
  ∃ evs, main_loop o obs st = Some (st, evs) ∧ started_workers evs = [].
Proof.
  intros Hexact Hsome. induction obs as [|[[stop client] now] rest IH]; [by exists []|].
  destruct stop; [by exists []|].
  destruct IH as (evs & Hrest & Hnone).
  erewrite main_loop_cons.
  2:{ rewrite main_loop_body_exact by done. by rewrite bool_decide_eq_false_2. }
  rewrite Hrest. exists ([Sleep (2 # 10)] ++ evs). split; [reflexivity|].
  by rewrite started_workers_app, Hnone.
Qed.

Lemma main_loop_exact_fresh o obs st :
  opt_exact o = true → active_workers st = ∅ →
  ∃ st' evs, main_loop o obs st = Some (st', evs)
    ∧ length (started_workers evs) ≤ 1
    ∧ ∀ w, w ∈ started_workers evs → container_name w = opt_pattern o.
Proof.
  intros Hexact. revert st.
  induction obs as [|[[stop client] now] rest IH]; intros st Hempty.
  - exists st, []. split; [reflexivity|]. split; [cbn; lia|].
    intros w Hw. by apply elem_of_nil in Hw.
  - destruct stop.
    { exists st, []. split; [reflexivity|]. split; [cbn; lia|].
      intros w Hw. by apply elem_of_nil in Hw. }
    destruct (reconcile_some o client (active_workers st)) as (m1 & ev1 & Hens & Hrec & _).
    destruct (ensure_exact_starts o client _ _ _ Hexact Hens)
      as (Hlen & Hnames & Hnone & Hsome).
    erewrite main_loop_cons.
    2:{ rewrite main_loop_body_exact by done.
        rewrite bool_decide_eq_true_2 by done. rewrite Hrec. reflexivity. }
    destruct (started_workers ev1) as [|w ws] eqn:Hws.
    + destruct (IH {| active_workers := m1; last_refresh := last_refresh st |})
        as (st' & evs & Hrest & Hlen' & Hnames').
      { cbn. rewrite Hnone by done. exact Hempty. }
      rewrite Hrest. exists st', (((Reconcile :: ev1) ++ [Sleep (2 # 10)]) ++ evs).
      split; [reflexivity|].
      rewrite !started_workers_app, started_workers_reconcile, Hws. by split.
    + destruct (main_loop_exact_settled o rest
                  {| active_workers := m1; last_refresh := last_refresh st |} Hexact)
        as (evs & Hrest & Hnone').
      { cbn. by apply Hsome. }
      rewrite Hrest.
      exists {| active_workers := m1; last_refresh := last_refresh st |},
        (((Reconcile :: ev1) ++ [Sleep (2 # 10)]) ++ evs).
      split; [reflexivity|].
      rewrite !started_workers_app, started_workers_reconcile, Hws, Hnone'.
      change (started_workers [Sleep (2 # 10)]) with (@nil LogWorker).
      rewrite !app_nil_r. by split.
Qed.

Lemma filter_eq_NoDup_fmap {A B} `{EqDecision B} (f : A → B) (v : B) (l : list A) x rest :
  NoDup (f <$> l) → filter (λ y, f y = v) l = x :: rest → rest = [].
Proof.
  intros Hnd Hfil. destruct rest as [|y rest]; [reflexivity|]. exfalso.
  assert (Hsub : f <$> (x :: y :: rest) `sublist_of` f <$> l).
  { rewrite <- Hfil. apply fmap_sublist, sublist_filter. }
  pose proof (sublist_NoDup _ _ Hnd Hsub) as Hnd'.
  rewrite !fmap_cons in Hnd'. apply NoDup_cons in Hnd' as [Hx _]. apply Hx.
  assert (Hfx : x ∈ filter (λ y, f y = v) l) by (rewrite Hfil; left).
  assert (Hfy : y ∈ filter (λ y, f y = v) l) by (rewrite Hfil; right; left).
  apply list_elem_of_filter in Hfx as [-> _]. apply list_elem_of_filter in Hfy as [Hy _].
  rewrite <- Hy. left.
Qed.
End MainLoop.

(** X20. The main loop never loses a worker: over any number of
    iterations, in either mode, the loop returns, the entry of every
    worker that was alive is unchanged and every name that had an entry
    still has one. *)
Theorem main_loop_never_loses_workers
    (o : Options) (obs : list (bool * DockerClient * Q)) (st : LoopState) :
  ∃ st' evs, main_loop o obs st = Some (st', evs)
             ∧ grows (active_workers st) (active_workers st').
Proof.
  revert st. induction obs as [|[[stop client] now] rest IH]; intros st.
  - exists st, []. split; [reflexivity | apply grows_refl].
  - destruct stop; [exists st, []; split; [reflexivity | apply grows_refl]|].
    destruct (main_loop_body_grows o client now st) as (st1 & ev1 & Hbody & Hg1).
    destruct (IH st1) as (st2 & ev2 & Hrest & Hg2).
    rewrite (main_loop_cons _ _ _ _ _ _ _ Hbody), Hrest. cbn.
    eexists _, _. split; [reflexivity | by eapply grows_trans].
Qed.

(** X21. In substring mode an iteration rescans exactly when [refresh]
    seconds have passed since the last rescan: then it reconciles once and
    records the time of the rescan; otherwise it only sleeps and leaves
    the state as it is. *)
Theorem substring_mode_rescans_on_interval
    (o : Options) (client : DockerClient) (now : Q) (st : LoopState) :
  opt_exact o = false →
  ∃ st' evs,
    main_loop_body o client now st = Some (st', evs)
    ∧ (Reconcile ∈ evs ↔ Qle_bool (opt_refresh o) (now - last_refresh st) = true)
    ∧ (Qle_bool (opt_refresh o) (now - last_refresh st) = true → last_refresh st' = now)
    ∧ (Qle_bool (opt_refresh o) (now - last_refresh st) = false →
       st' = st ∧ evs = [Sleep (2 # 10)]).
Proof.
  intros Hexact. rewrite main_loop_body_substring by done.
  destruct (Qle_bool (opt_refresh o) (now - last_refresh st)).
  - destruct (reconcile_some o client (active_workers st)) as (m' & evs & _ & -> & _).
    cbn. eexists _, _. split; [reflexivity|]. split; [split; [done | intros _; left]|].
    split; [done | discriminate].
  - eexists _, _. split; [reflexivity|]. split.
    + split; [|discriminate]. intros Hin. apply list_elem_of_singleton in Hin. discriminate.
    + split; [discriminate | done].
Qed.

Lemma substring_mode_rescans_on_interval_witness :
  ∃ st' evs,
    main_loop_body substring_a fleet 10 {| active_workers := ∅; last_refresh := 0 |}
    = Some (st', evs)
    ∧ (Reconcile ∈ evs ↔ Qle_bool 1 (10 - 0) = true)
    ∧ (Qle_bool 1 (10 - 0) = true → last_refresh st' = 10%Q)
    ∧ (Qle_bool 1 (10 - 0) = false →
       st' = {| active_workers := ∅; last_refresh := 0 |} ∧ evs = [Sleep (2 # 10)]).
Proof.
  exact (substring_mode_rescans_on_interval substring_a fleet 10
           {| active_workers := ∅; last_refresh := 0 |} eq_refl).
Defined.

(** X22. Exact mode tails only the specified container, once: from the
    initial spawn through any number of iterations of the main loop,
    [logs] in exact mode starts at most one worker, and its container name
    is the pattern. *)
Theorem exact_mode_starts_one_worker
    (o : Options) (client client_check : DockerClient)
    (obs : list (bool * DockerClient * Q)) :
  opt_exact o = true →
  ∃ st evs,
    logs_run o client client_check obs = Some (st, evs)
    ∧ length (started_workers evs) ≤ 1
    ∧ ∀ w, w ∈ started_workers evs → container_name w = opt_pattern o.
Proof.
  intros Hexact. unfold logs_run, logs_start.
  destruct (reconcile_some o client ∅) as (m0 & ev0 & Hens & _ & _).
  rewrite Hens. cbn [mbind option_bind].
  destruct (ensure_exact_starts o client _ _ _ Hexact Hens)
    as (Hlen & Hnames & Hnone & Hsome).
  destruct (started_workers ev0) as [|w ws] eqn:Hws.
  - destruct (main_loop_exact_fresh o obs {| active_workers := m0; last_refresh := 0 |}
                Hexact) as (st & evs & Hrun & Hlen' & Hnames').
    { cbn. by apply Hnone. }
    rewrite Hrun. exists st, (ev0 ++ evs). split; [reflexivity|].
    rewrite started_workers_app, Hws. by split.
  - destruct (main_loop_exact_settled o obs {| active_workers := m0; last_refresh := 0 |}
                Hexact) as (evs & Hrun & Hnone').
    { cbn. by apply Hsome. }
    rewrite Hrun. exists {| active_workers := m0; last_refresh := 0 |}, (ev0 ++ evs).
    split; [reflexivity|].
    rewrite started_workers_app, Hws, Hnone', app_nil_r. by split.
Qed.

Lemma exact_mode_starts_one_worker_witness :
  ∃ st evs,
    logs_run exact_api fleet fleet [(false, fleet, 10%Q); (false, fleet_later, 11%Q)]
    = Some (st, evs)
    ∧ length (started_workers evs) ≤ 1
    ∧ ∀ w, w ∈ started_workers evs → container_name w = "api".
Proof.
  exact (exact_mode_starts_one_worker exact_api fleet fleet
           [(false, fleet, 10%Q); (false, fleet_later, 11%Q)] eq_refl).
Defined.

(** X23. The advisory means that nothing is tailed: when container names
    are unique in the listing and the advisory about a TTY is due, the
    mode is exact, TTY containers are excluded, the name it mentions is
    the pattern, and a reconciliation pass over the same listing starts no
    worker and leaves the worker map as it is. *)
Theorem tty_advisory_means_nothing_tailed
    (o : Options) (client : DockerClient) (name : string)
    (active_workers : gmap string LogWorker) :
  NoDup (Container.name <$> containers_list client) →
  tty_advisory o client = Some name →
  opt_exact o = true
  ∧ opt_include_tty o = false
  ∧ name = opt_pattern o
  ∧ ensure_workers_for_matches client (opt_pattern o) (opt_exact o) (opt_tail o)
      (opt_since o) (opt_include_tty o) active_workers
    = Some (active_workers, []).
Proof.
  intros Hnd Hadv. unfold tty_advisory in Hadv.
  destruct (opt_exact o) eqn:Hexact; [|discriminate].
  destruct (find_matching_containers client (opt_pattern o) true true)
    as [|c rest] eqn:Hmatches; [discriminate|].
  destruct (is_tty_container c) eqn:Htty; [|discriminate].
  destruct (opt_include_tty o) eqn:Hincl; [discriminate|].
  cbn in Hadv. injection Hadv as <-.
  assert (Hc : c ∈ find_matching_containers client (opt_pattern o) true true)
    by (rewrite Hmatches; left).
  split; [reflexivity|]. split; [reflexivity|].
  split; [by apply exact_matches_named in Hc|].
  rewrite find_matching_containers_include in Hmatches.
  pose proof (filter_eq_NoDup_fmap Container.name _ _ _ _ Hnd Hmatches) as ->.
  unfold ensure_workers_for_matches.
  rewrite find_matching_containers_exclude, find_matching_containers_include, Hmatches.
  rewrite filter_cons_False by (by rewrite Htty). reflexivity.
Qed.

Lemma tty_advisory_means_nothing_tailed_witness :
  opt_exact exact_api = true
  ∧ opt_include_tty exact_api = false
  ∧ "api" = opt_pattern exact_api
  ∧ ensure_workers_for_matches {| containers_list := [shell "api"; container "web" "running" []] |}
      (opt_pattern exact_api) (opt_exact exact_api) (opt_tail exact_api)
      (opt_since exact_api) (opt_include_tty exact_api) ∅
    = Some (∅, []).
Proof.
  apply (tty_advisory_means_nothing_tailed exact_api
           {| containers_list := [shell "api"; container "web" "running" []] |} "api" ∅).
  - apply (bool_decide_unpack _). vm_compute. reflexivity.
  - vm_compute. reflexivity.
Defined.

Section Attachment.
Implicit Types (w : LogWorker) (evs : list event).

Lemma attached_scan_app a evs1 evs2 :
  attached_scan a (evs1 ++ evs2) = attached_scan a evs1 ≫= λ a', attached_scan a' evs2.
Proof.
  revert a. induction evs1 as [|e rest IH]; intros a; [reflexivity|].
  destruct e; cbn [app attached_scan]; try apply IH.
  destruct a; [apply IH | reflexivity].
Qed.

Lemma attached_scan_follow w chunks ending :
  attached_scan true (follow w chunks ending) = Some true.
Proof.
  induction chunks as [|[stop text] rest IH]; cbn [follow].
  - by destruct ending.
  - destruct stop; [reflexivity|].
    by destruct (decide (rstrip_newline text = "")).
Qed.

Lemma attached_scan_iteration w got :
  attached_scan (_attached_running w) (run_iteration w got).2
  = Some (_attached_running (run_iteration w got).1).
Proof.
  assert (Hstop : attached_scan (_attached_running w) (stop_branch w).2
                  = Some (_attached_running (stop_branch w).1)).
  { unfold stop_branch. destruct (_attached_running w) eqn:Hflag; [reflexivity|].
    cbn. by rewrite Hflag. }
  destruct got as [| |c]; cbn [run_iteration]; [exact Hstop | reflexivity |].
  destruct (Container.reload c) as [a|]; [|reflexivity].
  destruct (decide (Container.status a ≠ "running")); [exact Hstop|].
  destruct (_attached_running w) eqn:Hflag; cbn [negb fst snd app attached_scan].
  - by rewrite attached_scan_follow, Hflag.
  - by rewrite attached_scan_follow.
Qed.
End Attachment.

(** X24. Log lines are printed only while attached: reading the trace of
    any run from its start, with the attached flag the worker began with
    flipped at every banner, each log line is met with the flag set (so,
    for a worker that was not attached, after a ["+"] that no ["-"] has
    followed), and the flag at the end of the trace is the worker's. *)
Theorem worker_lines_only_while_attached (w : LogWorker) (obs : list (bool * lookup)) :
  attached_scan (_attached_running w) (run w obs).2
  = Some (_attached_running (run w obs).1).
Proof.
  revert w. induction obs as [|[stop got] rest IH]; intros w; [reflexivity|].
  destruct stop; [reflexivity|]. rewrite run_cons. cbn [fst snd].
  by rewrite attached_scan_app, attached_scan_iteration, <- IH.
Qed.

(** X25. After the initial spawn the worker map mirrors the matches: the
    spawn returns, a name has a record exactly when a matching container
    bears it, every record is of a worker that is alive and was started by
    the spawn, and the loop state starts with [last_refresh] at 0. *)
Theorem logs_start_tracks_matches (o : Options) (client client_check : DockerClient) :
  ∃ m evs,
    logs_start o client client_check
    = Some ({| active_workers := m; last_refresh := 0 |}, evs, tty_advisory o client_check)
    ∧ (∀ name, is_Some (m !! name)
         ↔ name ∈ Container.name
                    <$> find_matching_containers client (opt_pattern o) (opt_exact o)
                          (opt_include_tty o))
    ∧ ∀ name w, m !! name = Some w → alive w = true ∧ Start w ∈ evs.
Proof.
  unfold logs_start, ensure_workers_for_matches.
  destruct (spawn_is_Some (opt_tail o) (opt_since o)
              (find_matching_containers client (opt_pattern o) (opt_exact o)
                 (opt_include_tty o))
              (alive_styles ∅) ∅) as [[m evs] Hsp].
  rewrite Hsp. exists m, evs. split; [reflexivity|]. split.
  - intros name. split.
    + intros Hsome.
      destruct (decide (name ∈ Container.name
                  <$> find_matching_containers client (opt_pattern o) (opt_exact o)
                        (opt_include_tty o))) as [Hin|Hout]; [exact Hin|].
      rewrite (spawn_untouched _ _ _ _ _ _ _ _ Hsp Hout), lookup_empty in Hsome.
      by destruct Hsome.
    + intros Hin. apply list_elem_of_fmap in Hin as (c & -> & Hc).
      pose proof (spawn_covers _ _ _ _ _ _ _ c Hsp Hc) as Hn. unfold needs_worker in Hn.
      destruct (m !! Container.name c); [by eexists | discriminate].
  - intros name w Hw.
    destruct (spawn_entry _ _ _ _ _ _ _ name Hsp) as [Heq | (_ & w' & Hw' & Hal & Hin)].
    + rewrite Hw, lookup_empty in Heq. discriminate.
    + rewrite Hw in Hw'. injection Hw' as <-. by split.
Qed.
